(** * go-comic-converter: page loading and command-line validation

    A shallow embedding of [internal/epub/imageprocessor/epub_image_processor_loader.go]
    and of the option handling of [main.go], with the properties of the
    design document stated and proved (or refuted) over it.

    Go strings are byte strings: they are modelled as [string], one [ascii]
    per byte.  Paths follow the Unix rules of [path/filepath] (separator
    ['/'], no volume name). *)

From Stdlib Require Import String Ascii List ZArith Lia Bool Permutation.
From stdpp Require Import base option gmap strings list fin_maps sorting.

Local Open Scope string_scope.
Local Open Scope nat_scope.

(** ** Go string primitives *)

(** [s[n:]] without the bounds check. *)
Fixpoint drop_s (n : nat) (s : string) : string :=
  match n, s with
  | O, _ => s
  | S n', String _ s' => drop_s n' s'
  | S _, EmptyString => EmptyString
  end.

(** [s[:n]] without the bounds check. *)
Fixpoint take_s (n : nat) (s : string) : string :=
  match n, s with
  | O, _ => EmptyString
  | S n', String c s' => String c (take_s n' s')
  | S _, EmptyString => EmptyString
  end.

(** [s[n:]] as Go evaluates it: a slice bound beyond [len(s)] panics
    ([None]). *)
Definition slice_from (s : string) (n : nat) : option string :=
  if n <=? String.length s then Some (drop_s n s) else None.

(** [os.IsPathSeparator] on Unix. *)
Definition IsPathSeparator (c : ascii) : bool := Ascii.eqb c "/".

(** [unicode.ToLower] restricted to one byte: ['A'..'Z'] move down by 32,
    every other byte is kept. *)
Definition lower_byte (c : ascii) : ascii :=
  let n := nat_of_ascii c in
  if (65 <=? n) && (n <=? 90) then ascii_of_nat (n + 32) else c.

(** [strings.ToLower] on byte strings.  Go maps every rune through
    [unicode.ToLower]; on ASCII bytes that is [lower_byte], and no rune
    outside ASCII lowers to a letter of the four accepted extensions.
    Two runes outside ASCII lower to an ASCII letter (U+0130 to [i], U+212A
    to [k]): on a name whose suffix is [.z], U+0130, [p] Go finds the suffix [.zip] where
    this function does not, so what is stated of [load] is stated for
    suffixes of ASCII bytes. *)
Fixpoint ToLower (s : string) : string :=
  match s with
  | EmptyString => EmptyString
  | String c s' => String (lower_byte c) (ToLower s')
  end.

(** ** path/filepath *)

(** The loop of [filepath.Ext]:
    [for i := len(path)-1; i >= 0 && !IsPathSeparator(path[i]); i--] with
    [k = i+1]. *)
Fixpoint Ext_loop (path : string) (k : nat) : string :=
  match k with
  | O => ""
  | S i =>
      match String.get i path with
      | Some c =>
          if IsPathSeparator c then ""
          else if Ascii.eqb c "." then drop_s i path
          else Ext_loop path i
      | None => ""
      end
  end.

Definition Ext (path : string) : string := Ext_loop path (String.length path).

(** The loop shared by [filepath.Split] and [filepath.Base]:
    [for i >= 0 && !IsPathSeparator(path[i]) { i-- }], returning [i+1]. *)
Fixpoint back_to_sep (path : string) (k : nat) : nat :=
  match k with
  | O => O
  | S i =>
      match String.get i path with
      | Some c => if IsPathSeparator c then k else back_to_sep path i
      | None => k
      end
  end.

(** [filepath.Split]: [path[:i+1], path[i+1:]]. *)
Definition Split (path : string) : string * string :=
  let k := back_to_sep path (String.length path) in
  (take_s k path, drop_s k path).

(** Stripping of trailing separators in [filepath.Base]. *)
Fixpoint strip_trailing_sep (path : string) (k : nat) : string :=
  match k with
  | O => ""
  | S i =>
      match String.get i path with
      | Some c => if IsPathSeparator c then strip_trailing_sep path i
                  else take_s k path
      | None => take_s k path
      end
  end.

(** [filepath.Base]. *)
Definition Base (path : string) : string :=
  if String.eqb path "" then "."
  else
    let path := strip_trailing_sep path (String.length path) in
    let k := back_to_sep path (String.length path) in
    let path := drop_s k path in
    if String.eqb path "" then "/" else path.

(** [i == len(path) || IsPathSeparator(path[i])], for [i <= len(path)]. *)
Definition end_or_sep (path : string) (i : nat) : bool :=
  match String.get i path with
  | Some c => IsPathSeparator c
  | None => true
  end.

(** The inner loop of the [..] case of [filepath.Clean], entered after the
    first [out.w--]:
    [for out.w > dotdot && !IsPathSeparator(out.index(out.w)) { out.w-- }]. *)
Fixpoint backtrack (buf : string) (dotdot w : nat) : nat :=
  match w with
  | O => O
  | S w' =>
      if (dotdot <? w) && negb (end_or_sep buf w) then backtrack buf dotdot w'
      else w
  end.

(** Copy of one path element:
    [for ; r < n && !IsPathSeparator(path[r]); r++ { out.append(path[r]) }]. *)
Fixpoint copy_elem (fuel : nat) (path : string) (r : nat) (out : string)
  : nat * string :=
  match fuel with
  | O => (r, out)
  | S f =>
      match String.get r path with
      | Some c =>
          if IsPathSeparator c then (r, out)
          else copy_elem f path (S r) (out ++ String c "")
      | None => (r, out)
      end
  end.

(** The main loop [for r < n] of [filepath.Clean].  [out] holds the first
    [out.w] bytes of the lazy buffer; every round advances [r], so
    [len(path)] rounds are enough. *)
Fixpoint Clean_loop (fuel : nat) (path : string) (rooted : bool)
    (r dotdot : nat) (out : string) : string :=
  match fuel with
  | O => out
  | S f =>
      match String.get r path with
      | None => out
      | Some c =>
          if IsPathSeparator c then Clean_loop f path rooted (r + 1) dotdot out
          else if Ascii.eqb c "." && end_or_sep path (r + 1) then
            Clean_loop f path rooted (r + 1) dotdot out
          else if Ascii.eqb c "."
                  && match String.get (r + 1) path with
                     | Some d => Ascii.eqb d "."
                     | None => false
                     end
                  && end_or_sep path (r + 2) then
            if dotdot <? String.length out then
              let w := backtrack out dotdot (String.length out - 1) in
              Clean_loop f path rooted (r + 2) dotdot (take_s w out)
            else if negb rooted then
              let out1 := if 0 <? String.length out then out ++ "/" else out in
              let out2 := out1 ++ ".." in
              Clean_loop f path rooted (r + 2) (String.length out2) out2
            else Clean_loop f path rooted (r + 2) dotdot out
          else
            let out1 :=
              if (rooted && negb (String.length out =? 1))
                 || (negb rooted && negb (String.length out =? 0))
              then out ++ "/" else out in
            let '(r', out2) := copy_elem (String.length path) path r out1 in
            Clean_loop f path rooted r' dotdot out2
      end
  end.

(** [filepath.Clean]. *)
Definition Clean (path : string) : string :=
  match path with
  | EmptyString => "."
  | String c _ =>
      let rooted := IsPathSeparator c in
      let out :=
        if rooted then Clean_loop (String.length path) path true 1 1 "/"
        else Clean_loop (String.length path) path false 0 0 "" in
      if String.length out =? 0 then "." else out
  end.

(** [strings.Join(elems, sep)]. *)
Fixpoint strings_Join (elems : list string) (sep : string) : string :=
  match elems with
  | [] => ""
  | [e] => e
  | e :: rest => e ++ sep ++ strings_Join rest sep
  end.

(** [filepath.Join]: the elements from the first non-empty one on, joined
    by the separator and cleaned. *)
Fixpoint Join (elem : list string) : string :=
  match elem with
  | [] => ""
  | e :: rest =>
      if String.eqb e "" then Join rest else Clean (strings_Join elem "/")
  end.


(** ** fmt *)

Definition is_digit (c : ascii) : bool :=
  let n := N_of_ascii c in ((48 <=? n) && (n <=? 57))%N.

Definition digit_val (c : ascii) : N := (N_of_ascii c - 48)%N.

Definition digit_char (d : N) : ascii := ascii_of_N (48 + d).

(** The digit loop of [fmtInteger] in base 10, for a non-negative value:
    [for u >= 10 { i--; next := u / 10; buf[i] = '0' + u - next*10; u = next }]
    followed by [buf[i] = '0' + u].  [acc] is the part of the buffer already
    written. *)
Fixpoint itoa_loop (fuel : nat) (u : N) (acc : string) : string :=
  match fuel with
  | O => String (digit_char (u mod 10)) acc
  | S f =>
      if (10 <=? u)%N
      then itoa_loop f (u / 10) (String (digit_char (u mod 10)) acc)
      else String (digit_char u) acc
  end.

(** The decimal digits of [u]; the value loses a bit each round, so its
    binary size bounds the number of rounds. *)
Definition itoa (u : N) : string := itoa_loop (N.size_nat u) u "".

(** [strings.Repeat] of one byte. *)
Fixpoint repeat_s (c : ascii) (n : nat) : string :=
  match n with
  | O => ""
  | S n' => String c (repeat_s c n')
  end.

(** [fmtInteger] for verb [d] and a non-negative argument: with the zero
    flag and a width the digits are completed with zeros up to the width,
    with a width alone [pad] completes with spaces. *)
Definition fmtInteger (u : N) (wid : N) (widPresent zero : bool) : string :=
  let digits := itoa u in
  if widPresent
  then repeat_s (if zero then "0" else " ")%char
                (N.to_nat wid - String.length digits) ++ digits
  else digits.

(** [parsenum]: the leading decimal number of [s], whether there was one,
    and the rest.  As in Go a number above [1e6] is refused ([None]). *)
Fixpoint parsenum (s : string) (num : N) (isnum : bool)
  : option (N * bool * string) :=
  match s with
  | String c s' =>
      if is_digit c then
        if (1000000 <? num)%N then None
        else parsenum s' (num * 10 + digit_val c) true
      else Some (num, isnum, s)
  | EmptyString => Some (num, isnum, s)
  end.

(** The flag loop of [doPrintf], for the zero flag. *)
Fixpoint flags (s : string) (zero : bool) : bool * string :=
  match s with
  | String "0"%char s' => flags s' true
  | _ => (zero, s)
  end.

(** [fmt.Sprintf] on the fragment the loader uses: literal bytes, [%%], and
    [%d] with an optional zero flag and width, applied to non-negative
    integers.  Anything else (other verbs and flags, missing or extra
    operands) is outside the model: [None]. *)
Fixpoint Sprintf_loop (fuel : nat) (format : string) (a : list N)
  : option string :=
  match format with
  | EmptyString => match a with [] => Some "" | _ => None end
  | String c rest =>
      match fuel with
      | O => None
      | S f =>
          if Ascii.eqb c "%" then
            let '(zero, rest1) := flags rest false in
            match parsenum rest1 0 false with
            | None => None
            | Some (wid, widPresent, rest2) =>
                match rest2 with
                | String v rest3 =>
                    if Ascii.eqb v "%" then
                      option_map (String "%") (Sprintf_loop f rest3 a)
                    else if Ascii.eqb v "d" then
                      match a with
                      | x :: a' =>
                          option_map
                            (String.append (fmtInteger x wid widPresent zero))
                            (Sprintf_loop f rest3 a')
                      | [] => None
                      end
                    else None
                | EmptyString => None
                end
            end
          else option_map (String c) (Sprintf_loop f rest a)
      end
  end.

Definition Sprintf_opt (format : string) (a : list N) : option string :=
  Sprintf_loop (String.length format) format a.

(** [fmt.Sprintf]; the formats of the loader stay inside the modelled
    fragment (lemma [pageFmt_modelled] below), the empty string stands for
    the others. *)
Definition Sprintf (format : string) (a : list N) : string :=
  match Sprintf_opt format a with Some s => s | None => "" end.

(** ** The world outside the loader

    Archives, the file system and the codecs are services of other
    packages; the loader sees them through the calls below. *)

(** One call of the [filepath.WalkDir] callback: an entry of the tree, or
    the error met while reading it. *)
Inductive walk_item :=
| WalkEntry (path : string) (isDir : bool)
| WalkError (path : string) (err : string).

Module zip.
(** [*zip.File]: [f.Name], [f.FileInfo().IsDir()] and the outcome of
    [f.Open()] (an error text, or the bytes of the member). *)
Record File := { Name : string; IsDir : bool; Open : string + string }.
End zip.

Module rardecode.
(** An element of the result of [rardecode.List]. *)
Record File :=
  { Name : string; IsDir : bool; Solid : bool; Open : string + string }.

(** The header [r.Next()] returns while streaming. *)
Record FileHeader := { HName : string }.

(** How a sequential reader ends: [io.EOF], or another error of
    [r.Next()], returned with or without a header. *)
Inductive stream_end :=
| EOF
| NextError (f : option FileHeader) (err : string).

(** A sequential reader: the entries [r.Next()] yields in turn, each with
    the outcome of [io.Copy] of its content, and the way the stream
    ends. *)
Record Reader :=
  { entries : list (FileHeader * (string + string)); ending : stream_end }.
End rardecode.

(** The receiver [e *EPUBImageProcessor], with the fields the loader
    reads. *)
Record EPUBImageProcessor :=
  { Input : string; Dry : bool; SortPathMode : Z; Workers : Z }.

Record Env := {
  (** [image.Image], and [image.Decode] on the bytes of a file *)
  image : Type;
  image_Decode : string -> string + image;
  (** [os.Stat]: an error text, or [fi.IsDir()] *)
  os_Stat : string -> string + bool;
  (** the calls [filepath.WalkDir] makes on a root, in order *)
  filepath_WalkDir : string -> list walk_item;
  (** [os.Open]: an error text, or the bytes of the file *)
  os_Open : string -> string + string;
  (** [zip.OpenReader]: an error text, or [r.File] *)
  zip_OpenReader : string -> string + list zip.File;
  (** [rardecode.List] and [rardecode.OpenReader] *)
  rardecode_List : string -> string + list rardecode.File;
  rardecode_OpenReader : string -> string + rardecode.Reader;
  (** [pdfread.Load] ([None] for [nil]): [len(pdf.Pages())] and
      [pdfimage.Extract(pdf, page)] *)
  pdfread_Load : string -> option (nat * (nat -> string + image));
  (** Modelled from the spec: [sortpath.By] under [sort.Sort] is not part of
      the sources at hand; it reorders the names into the page sequence of
      the given sort mode. *)
  sortpath_By : Z -> list string -> list string;
  (** Modelled from the spec: [WorkersRatio] is not part of the sources at
      hand; from the configured number of workers and a percentage it gives
      the number of goroutines of a stage. *)
  WorkersRatio : Z -> Z -> Z
}.

(** ** The loader *)

Record tasks (I : Type) :=
  { Id : nat; Image : option I; Path : string; Name : string }.
Arguments Id {I} _.
Arguments Image {I} _.
Arguments Path {I} _.
Arguments Name {I} _.

(** The errors [load] returns: the sentinel [errNoImagesFound], an error
    passed on from a callee, or one made with [fmt.Errorf]. *)
Inductive error :=
| errNoImagesFound
| errFrom (msg : string)
| errorf (msg : string).

(** What a goroutine does with one job: it sends a value, it writes to
    [os.Stderr] and calls [os.Exit(1)], or it panics. *)
Inductive step (A : Type) :=
| Emit (a : A)
| Exit1 (stderr : string)
| Panic.
Arguments Emit {A} _.
Arguments Exit1 {A} _.
Arguments Panic {A}.

(** How the goroutine that fills the [jobs] channel ends. *)
Inductive producer_end :=
| Closes
| ProducerExit (stderr : string)
| ProducerPanic.

(** What the reader of [output] sees: the tasks received until the channel
    is closed, or the end of the process. *)
Inductive run (I : Type) :=
| Closed (out : list (tasks I))
| Exited (code : Z) (stderr : string)
| Panicked.
Arguments Closed {I} _.
Arguments Exited {I} _ _.
Arguments Panicked {I}.

(** The channel [output] as [load] returns it, with the goroutines behind
    it: a pool of [workers] goroutines that take the [jobs] and send one task
    each, or one goroutine that sends the tasks itself. *)
Inductive chan (I : Type) :=
| Pool (J : Type) (workers : Z) (jobs : list J) (fin : producer_end)
       (worker : J -> step (tasks I))
| Direct (r : run I).
Arguments Pool {I} _ _ _ _ _.
Arguments Direct {I} _.

Inductive load_result (I : Type) :=
| LoadError (err : error)
| Loaded (totalImages : nat) (output : chan I).
Arguments LoadError {I} _.
Arguments Loaded {I} _ _.

Definition nl : string := String (ascii_of_nat 10) "".

(** [fmt.Fprintf(os.Stderr, "\nerror processing image %s: %s\n", name, err)]. *)
Definition error_processing (name err : string) : string :=
  nl ++ "error processing image " ++ name ++ ": " ++ err ++ nl.

Definition isSupportedImage (path : string) : bool :=
  let ext := ToLower (Ext path) in
  String.eqb ext ".jpg" || String.eqb ext ".jpeg"
  || String.eqb ext ".png" || String.eqb ext ".webp".

(** The block every worker starts with:
    [var img image.Image; if !e.Dry { f, err := open(); ...; img, _, err = image.Decode(f); ... }]. *)
Definition decode (env : Env) (e : EPUBImageProcessor) (name : string)
    (open : string + string) : step (option (image env)) :=
  if Dry e then Emit None
  else
    match open with
    | inl err => Exit1 (error_processing name err)
    | inr f =>
        match image_Decode env f with
        | inl err => Exit1 (error_processing name err)
        | inr img => Emit (Some img)
        end
    end.

(** [indexedNames[name] = i] for [i, name := range names]. *)
Definition indexNames (names : list string) : gmap string nat :=
  foldl (fun m p => <[snd p := fst p]> m) ∅ (imap pair names).

Module Dir.
Record job := { Id : nat; Path : string }.

(** The callback of [filepath.WalkDir] over the calls of one walk. *)
Fixpoint walk (items : list walk_item) (images : list string)
  : string + list string :=
  match items with
  | [] => inr images
  | WalkError _ err :: _ => inl err
  | WalkEntry path d :: rest =>
      walk rest
        (if negb d && isSupportedImage path then images ++ [path] else images)
  end.

Definition worker (env : Env) (e : EPUBImageProcessor) (input : string)
    (j : job) : step (tasks (image env)) :=
  match decode env e (Path j) (os_Open env (Path j)) with
  | Emit img =>
      let '(p, fn) := Split (Path j) in
      match (if String.eqb p input then Some ""
             else slice_from p (String.length input + 1)) with
      | Some p => Emit (Build_tasks (image env) (Id j) img p fn)
      | None => Panic
      end
  | Exit1 msg => Exit1 msg
  | Panic => Panic
  end.
End Dir.

(** [for i, path := range images { jobs <- &job{i, path} }]. *)
Definition Dir_jobs (images : list string) : list Dir.job :=
  imap Dir.Build_job images.

Definition loadDir (env : Env) (e : EPUBImageProcessor) : load_result (image env) :=
  let input := Clean (Input e) in
  match Dir.walk (filepath_WalkDir env input) [] with
  | inl err => LoadError (errFrom err)
  | inr images =>
      let totalImages := length images in
      if totalImages =? 0 then LoadError errNoImagesFound
      else
        let images := sortpath_By env (SortPathMode e) images in
        Loaded totalImages
          (Pool Dir.job (WorkersRatio env (Workers e) 50) (Dir_jobs images) Closes
                (Dir.worker env e input))
  end.

Module Cbz.
Record job := { Id : nat; F : zip.File }.

(** [for _, f := range r.File]: the members kept as pages. *)
Definition images (files : list zip.File) : list zip.File :=
  List.filter (fun f => negb (zip.IsDir f) && isSupportedImage (zip.Name f))
              files.

Definition worker (env : Env) (e : EPUBImageProcessor) (j : job)
  : step (tasks (image env)) :=
  match decode env e (zip.Name (F j)) (zip.Open (F j)) with
  | Emit img =>
      let '(p, fn) := Split (Clean (zip.Name (F j))) in
      Emit (Build_tasks (image env) (Id j) img p fn)
  | Exit1 msg => Exit1 msg
  | Panic => Panic
  end.
End Cbz.

(** A lookup [m[name]] in a Go map: the zero value when the key is
    absent. *)
Definition map_get (m : gmap string nat) (name : string) : nat :=
  default 0 (m !! name).

Definition loadCbz (env : Env) (e : EPUBImageProcessor) : load_result (image env) :=
  match zip_OpenReader env (Input e) with
  | inl err => LoadError (errFrom err)
  | inr files =>
      let images := Cbz.images files in
      let totalImages := length images in
      if totalImages =? 0 then LoadError errNoImagesFound
      else
        let names := map zip.Name images in
        let names := sortpath_By env (SortPathMode e) names in
        let indexedNames := indexNames names in
        Loaded totalImages
          (Pool Cbz.job (WorkersRatio env (Workers e) 50)
                (map (fun img => Cbz.Build_job (map_get indexedNames (zip.Name img)) img)
                     images)
                Closes (Cbz.worker env e))
  end.

Module Cbr.
(** The field [Open] of a job: [img.Open] of a listed file, which opens
    the archive for this member, or the closure over the bytes buffered
    by the sequential pass. *)
Inductive opener :=
| FromArchive (img : rardecode.File)
| FromMemory (b : string).

Record job := { Id : nat; Name : string; Open : opener }.

(** [for _, f := range files]: the members kept as pages. *)
Definition images (files : list rardecode.File) : list rardecode.File :=
  List.filter
    (fun f => negb (rardecode.IsDir f) && isSupportedImage (rardecode.Name f))
    files.

Definition call (o : opener) : string + string :=
  match o with
  | FromArchive img => rardecode.Open img
  | FromMemory b => inr b
  end.

Definition worker (env : Env) (e : EPUBImageProcessor) (j : job)
  : step (tasks (image env)) :=
  match decode env e (Name j) (call (Open j)) with
  | Emit img =>
      let '(p, fn) := Split (Clean (Name j)) in
      Emit (Build_tasks (image env) (Id j) img p fn)
  | Exit1 msg => Exit1 msg
  | Panic => Panic
  end.

(** The sequential pass [for { f, rerr := r.Next(); ... }] over a solid
    archive: the jobs sent before the goroutine ends, and how it ends.  A
    failed [r.Next()] formats [f.Name], which panics when no header came
    with the error. *)
Fixpoint stream (indexedNames : gmap string nat)
    (entries : list (rardecode.FileHeader * (string + string)))
    (ending : rardecode.stream_end) : list job * producer_end :=
  match entries with
  | [] =>
      match ending with
      | rardecode.EOF => ([], Closes)
      | rardecode.NextError (Some f) rerr =>
          ([], ProducerExit (error_processing (rardecode.HName f) rerr))
      | rardecode.NextError None _ => ([], ProducerPanic)
      end
  | (f, data) :: rest =>
      match indexedNames !! rardecode.HName f with
      | Some i =>
          match data with
          | inl rerr =>
              ([], ProducerExit (error_processing (rardecode.HName f) rerr))
          | inr b =>
              let '(js, fin) := stream indexedNames rest ending in
              (Build_job i (rardecode.HName f) (FromMemory b) :: js, fin)
          end
      | None => stream indexedNames rest ending
      end
  end.

(** The goroutine that fills [jobs]: the jobs, the way it ends, and the
    number of sequential readers it opened. *)
Definition producer (env : Env) (e : EPUBImageProcessor) (isSolid : bool)
    (files : list rardecode.File) (indexedNames : gmap string nat)
  : list job * producer_end * nat :=
  if isSolid && negb (Dry e) then
    match rardecode_OpenReader env (Input e) with
    | inl rerr => ([], ProducerExit (error_processing (Input e) rerr), 1)
    | inr r =>
        (stream indexedNames (rardecode.entries r) (rardecode.ending r), 1)
    end
  else
    (omap (fun img =>
             match indexedNames !! rardecode.Name img with
             | Some i => Some (Build_job i (rardecode.Name img) (FromArchive img))
             | None => None
             end) files,
     Closes, 0).
End Cbr.

Definition loadCbr (env : Env) (e : EPUBImageProcessor) : load_result (image env) :=
  match rardecode_List env (Input e) with
  | inl err => LoadError (errFrom err)
  | inr files =>
      let images := Cbr.images files in
      let isSolid := existsb rardecode.Solid images in
      let names := map rardecode.Name images in
      let totalImages := length names in
      if totalImages =? 0 then LoadError errNoImagesFound
      else
        let names := sortpath_By env (SortPathMode e) names in
        let indexedNames := indexNames names in
        let '(jobs, fin, _) := Cbr.producer env e isSolid files indexedNames in
        Loaded totalImages
          (Pool Cbr.job (WorkersRatio env (Workers e) 50) jobs fin (Cbr.worker env e))
  end.

(** The loop [for i := 0; i < totalImages; i++] of [loadPdf], with [n] pages
    left and [out] already sent. *)
Fixpoint Pdf_loop (env : Env) (e : EPUBImageProcessor)
    (Extract : nat -> string + image env) (pageFmt : string)
    (n i : nat) (out : list (tasks (image env))) : run (image env) :=
  match n with
  | O => Closed out
  | S n' =>
      match (if Dry e then inr None
             else match Extract (i + 1) with
                  | inl err => inl err
                  | inr img => inr (Some img)
                  end) with
      | inl err => Exited 1 (err ++ nl)
      | inr img =>
          Pdf_loop env e Extract pageFmt n' (S i)
            (out ++ [Build_tasks (image env) i img ""
                       (Sprintf pageFmt [N.of_nat (i + 1)])])
      end
  end.

Definition loadPdf (env : Env) (e : EPUBImageProcessor) : load_result (image env) :=
  match pdfread_Load env (Input e) with
  | None => LoadError (errorf "can't read pdf")
  | Some (pages, Extract) =>
      let totalImages := pages in
      let pageFmt :=
        Sprintf "page %%0%dd"
          [N.of_nat (String.length (Sprintf "%d" [N.of_nat totalImages]))] in
      Loaded totalImages
        (Direct (Pdf_loop env e Extract pageFmt totalImages 0 []))
  end.

Definition load (env : Env) (e : EPUBImageProcessor) : load_result (image env) :=
  match os_Stat env (Input e) with
  | inl err => LoadError (errFrom err)
  | inr isDir =>
      if isDir then loadDir env e
      else
        let ext := ToLower (Ext (Input e)) in
        if String.eqb ext ".cbz" || String.eqb ext ".zip" then loadCbz env e
        else if String.eqb ext ".cbr" || String.eqb ext ".rar" then loadCbr env e
        else if String.eqb ext ".pdf" then loadPdf env e
        else LoadError
               (errorf ("unknown file format (" ++ ext
                        ++ "): support .cbz, .zip, .cbr, .rar, .pdf"))
  end.

(** ** What the reader of the output channel can see *)

(** All the jobs done by one worker, in the order of the queue. *)
Fixpoint drain_jobs {I J : Type} (worker : J -> step (tasks I))
    (jobs : list J) (fin : producer_end) (out : list (tasks I)) : run I :=
  match jobs with
  | [] =>
      match fin with
      | Closes => Closed out
      | ProducerExit msg => Exited 1 msg
      | ProducerPanic => Panicked
      end
  | j :: rest =>
      match worker j with
      | Emit t => drain_jobs worker rest fin (out ++ [t])
      | Exit1 msg => Exited 1 msg
      | Panic => Panicked
      end
  end.

(** One schedule of the goroutines: a single worker takes the jobs in
    turn.  Without any worker [wg.Wait()] returns at once and the channel
    is closed empty. *)
Definition drain {I : Type} (c : chan I) : run I :=
  match c with
  | Pool _ workers jobs fin worker =>
      if (0 <? workers)%Z then drain_jobs worker jobs fin [] else Closed []
  | Direct r => r
  end.

(** Every schedule of a pool with at least one worker.  The workers finish
    their jobs in any order, so the tasks of a run that closes are those of
    the jobs in some order; the process ends as soon as one goroutine exits
    or panics, whichever does so first. *)
Inductive pool_observes {I J : Type} (worker : J -> step (tasks I))
    (jobs : list J) (fin : producer_end) : run I -> Prop :=
| obs_closed ts out :
    fin = Closes ->
    Forall2 (fun j t => worker j = Emit t) jobs ts ->
    Permutation ts out ->
    pool_observes worker jobs fin (Closed out)
| obs_worker_exit j msg :
    In j jobs -> worker j = Exit1 msg ->
    pool_observes worker jobs fin (Exited 1 msg)
| obs_worker_panic j :
    In j jobs -> worker j = Panic ->
    pool_observes worker jobs fin Panicked
| obs_producer_exit msg :
    fin = ProducerExit msg ->
    pool_observes worker jobs fin (Exited 1 msg)
| obs_producer_panic :
    fin = ProducerPanic ->
    pool_observes worker jobs fin Panicked.

(** What the reader of the channel can see, over every schedule. *)
Definition observes {I : Type} (c : chan I) (r : run I) : Prop :=
  match c with
  | Pool _ workers jobs fin worker =>
      if (0 <? workers)%Z then pool_observes worker jobs fin r
      else r = Closed []
  | Direct r0 => r = r0
  end.

(** The part of a task that does not depend on decoding. *)
Definition triple {I : Type} (t : tasks I) : nat * string * string :=
  (Id t, Path t, Name t).

(** ** main.go: the options *)

Module Main.

(** The palettes of [imageconverter], which is not part of the sources at
    hand: only their names are needed here. *)
Inductive Palette := PALETTE_4 | PALETTE_15 | PALETTE_16.

Record Profile :=
  { Code : string; Description : string; Width : Z; Height : Z;
    Palette_ : Palette }.

Definition Profiles : list Profile :=
  [ Build_Profile "K1" "Kindle 1" 600 670 PALETTE_4;
    Build_Profile "K11" "Kindle 11" 1072 1448 PALETTE_16;
    Build_Profile "K2" "Kindle 2" 600 670 PALETTE_15;
    Build_Profile "K34" "Kindle Keyboard/Touch" 600 800 PALETTE_16;
    Build_Profile "K578" "Kindle" 600 800 PALETTE_16;
    Build_Profile "KDX" "Kindle DX/DXG" 824 1000 PALETTE_16;
    Build_Profile "KPW" "Kindle Paperwhite 1/2" 758 1024 PALETTE_16;
    Build_Profile "KV" "Kindle Paperwhite 3/4/Voyage/Oasis" 1072 1448 PALETTE_16;
    Build_Profile "KPW5" "Kindle Paperwhite 5/Signature Edition" 1236 1648 PALETTE_16;
    Build_Profile "KO" "Kindle Oasis 2/3" 1264 1680 PALETTE_16;
    Build_Profile "KS" "Kindle Scribe" 1860 2480 PALETTE_16;
    Build_Profile "KoMT" "Kobo Mini/Touch" 600 800 PALETTE_16;
    Build_Profile "KoG" "Kobo Glo" 768 1024 PALETTE_16;
    Build_Profile "KoGHD" "Kobo Glo HD" 1072 1448 PALETTE_16;
    Build_Profile "KoA" "Kobo Aura" 758 1024 PALETTE_16;
    Build_Profile "KoAHD" "Kobo Aura HD" 1080 1440 PALETTE_16;
    Build_Profile "KoAH2O" "Kobo Aura H2O" 1080 1430 PALETTE_16;
    Build_Profile "KoAO" "Kobo Aura ONE" 1404 1872 PALETTE_16;
    Build_Profile "KoN" "Kobo Nia" 758 1024 PALETTE_16;
    Build_Profile "KoC" "Kobo Clara HD/Kobo Clara 2E" 1072 1448 PALETTE_16;
    Build_Profile "KoL" "Kobo Libra H2O/Kobo Libra 2" 1264 1680 PALETTE_16;
    Build_Profile "KoF" "Kobo Forma" 1440 1920 PALETTE_16;
    Build_Profile "KoS" "Kobo Sage" 1440 1920 PALETTE_16;
    Build_Profile "KoE" "Kobo Elipsa" 1404 1872 PALETTE_16 ].

(** [init]: [ProfilesIdx[p.Code] = i] for [i, p := range Profiles]. *)
Definition ProfilesIdx : gmap string nat :=
  foldl (fun m p => <[Code (snd p) := fst p]> m) ∅ (imap pair Profiles).

Record Option :=
  { Input : string; Output : string; Profile_ : string; Author : string;
    Title : string; Quality : Z; NoCrop : bool; Algo : string; LimitMb : Z }.

Record ImageOptions :=
  { ViewWidth : Z; ViewHeight : Z; IQuality : Z; Crop : bool; IAlgo : string;
    IPalette : Palette }.

Record EpubOptions :=
  { EInput : string; EOutput : string; ELimitMb : Z; ETitle : string;
    EAuthor : string; EImageOptions : ImageOptions }.

(** How [main] goes on after the flags are parsed: it writes a message to
    [os.Stderr] (followed by the usage text, not modelled) and exits, it
    panics, or it starts the conversion with [epub.NewEpub(o).Write()]. *)
Inductive outcome :=
| Exit (code : Z) (stderr : string)
| Panics
| Write (o : EpubOptions).

(** The variable [defaultOutput] of [main], for an input that is or is not
    a directory. *)
Definition defaultOutput (isDir : bool) (input : string) : string :=
  let inputBase := Clean input in
  if isDir then inputBase ++ ".epub"
  else
    let ext := Ext inputBase in
    take_s (String.length inputBase - String.length ext) inputBase ++ ".epub".

(** The statements of [main] that settle [opt.Output]: the message of a
    failure, or the final path. *)
Definition settle_Output (Stat : string -> string + bool)
    (defaultOutput output : string) : string + string :=
  let output := if String.eqb output "" then defaultOutput else output in
  if negb (String.eqb (Ext output) ".epub") then
    match Stat output with
    | inl err => inl (err ++ nl)
    | inr false =>
        inl ("output must be an existing dir or end with .epub" ++ nl)
    | inr true => inr (Join [output; Base defaultOutput])
    end
  else inr output.

(** [main] from [flag.Parse()] on.  [Stat] is [os.Stat] (an error text or
    [IsDir()]); [ALGO_GRAY] tells the keys of the table of that name in
    [imageconverter]. *)
Definition main (Stat : string -> string + bool) (ALGO_GRAY : string -> bool)
    (opt : Option) : outcome :=
  if String.eqb (Input opt) "" then Exit 1 ("Missing input or output!" ++ nl)
  else
    match Stat (Input opt) with
    | inl err => Exit 1 (err ++ nl)
    | inr isDir =>
        let defaultOutput := defaultOutput isDir (Input opt) in
        match settle_Output Stat defaultOutput (Output opt) with
        | inl msg => Exit 1 msg
        | inr output =>
            match ProfilesIdx !! Profile_ opt with
            | None => Exit 1 ("Profile doesn't exists!" ++ nl)
            | Some profileIdx =>
                match Profiles !! profileIdx with
                | None => Panics
                | Some profile =>
                    if ((0 <? LimitMb opt) && (LimitMb opt <? 20))%Z then
                      Exit 1 ("LimitMb should be 0 or >= 20" ++ nl)
                    else
                      let title :=
                        if String.eqb (Title opt) "" then
                          let ext := Ext defaultOutput in
                          Base (take_s (String.length defaultOutput
                                        - String.length ext) defaultOutput)
                        else Title opt in
                      if negb (ALGO_GRAY (Algo opt)) then
                        Exit 1 ("algo doesn't exists" ++ nl)
                      else
                        Write
                          {| EInput := Input opt; EOutput := output;
                             ELimitMb := LimitMb opt; ETitle := title;
                             EAuthor := Author opt;
                             EImageOptions :=
                               {| ViewWidth := Width profile;
                                  ViewHeight := Height profile;
                                  IQuality := Quality opt;
                                  Crop := negb (NoCrop opt);
                                  IAlgo := Algo opt;
                                  IPalette := Palette_ profile |} |}
                end
            end
        end
    end.

(** The name the design document gives to the default output: the last
    element of the cleaned input, without its extension when the input is
    a file, followed by [.epub]. *)
Definition default_name (isDir : bool) (input : string) : string :=
  let file := snd (Split (Clean input)) in
  (if isDir then file
   else take_s (String.length file - String.length (Ext file)) file)
  ++ ".epub".

(** The options with [-limitmb l]. *)
Definition with_LimitMb (l : Z) (opt : Option) : Option :=
  {| Input := Input opt; Output := Output opt; Profile_ := Profile_ opt;
     Author := Author opt; Title := Title opt; Quality := Quality opt;
     NoCrop := NoCrop opt; Algo := Algo opt; LimitMb := l |}.

(** The same outcome for another accepted limit. *)
Definition limit_outcome (l : Z) (r : outcome) : outcome :=
  match r with
  | Write o =>
      Write {| EInput := EInput o; EOutput := EOutput o; ELimitMb := l;
               ETitle := ETitle o; EAuthor := EAuthor o;
               EImageOptions := EImageOptions o |}
  | _ => r
  end.

End Main.

(** ** Vocabulary of the statements *)

(** [all P s]: every byte of [s] satisfies [P]. *)
Fixpoint all (P : ascii -> bool) (s : string) : bool :=
  match s with
  | EmptyString => true
  | String c s' => P c && all P s'
  end.

(** Bytes that end neither a path element nor a file stem. *)
Definition plain_byte (c : ascii) : bool :=
  negb (IsPathSeparator c) && negb (Ascii.eqb c ".").

Definition not_sep (c : ascii) : bool := negb (IsPathSeparator c).

(** The extensions [isSupportedImage] accepts, without the dot. *)
Definition image_suffixes : list string := ["jpg"; "jpeg"; "png"; "webp"].

(** The number a string of decimal digits denotes, read from the left after
    the value [v]. *)
Fixpoint decimal (v : N) (s : string) : N :=
  match s with
  | EmptyString => v
  | String c s' => decimal (v * 10 + digit_val c) s'
  end.

(** A directory part: empty, or ending with a separator. *)
Definition dir_part (dir : string) : Prop :=
  dir = "" \/ exists d, dir = (d ++ "/")%string.


(** ** Sample worlds, for the examples *)

(** A sort mode: the names in the order of their bytes. *)
Definition sample_By (mode : Z) (names : list string) : list string :=
  merge_sort String.le names.

(** A decoder that accepts the files that start with [IMG] and keeps their
    bytes as the raster. *)
Definition sample_Decode (b : string) : string + string :=
  if String.prefix "IMG" b then inr b else inl "image: unknown format".

(** At least one goroutine, else the given share of the workers. *)
Definition sample_WorkersRatio (workers pct : Z) : Z :=
  Z.max 1 (workers * pct / 100).

Definition sample_env
    (stat : string -> string + bool)
    (walk : list walk_item)
    (open : string -> string + string)
    (zipFiles : string + list zip.File)
    (rarFiles : string + list rardecode.File)
    (rarReader : string + rardecode.Reader)
    (pdf : option (nat * (nat -> string + string))) : Env :=
  {| image := string;
     image_Decode := sample_Decode;
     os_Stat := stat;
     filepath_WalkDir := fun _ => walk;
     os_Open := open;
     zip_OpenReader := fun _ => zipFiles;
     rardecode_List := fun _ => rarFiles;
     rardecode_OpenReader := fun _ => rarReader;
     pdfread_Load := fun _ => pdf;
     sortpath_By := sample_By;
     WorkersRatio := sample_WorkersRatio |}.

Definition no_file (path : string) : string + string :=
  inl "no such file or directory".

Definition is_file (path : string) : string + bool := inr false.

(** A PDF of [pages] pages that can all be extracted. *)
Definition pdf_env (pages : nat) : Env :=
  sample_env is_file [] no_file (inl "not a zip") (inl "not a rar")
    (inl "not a rar") (Some (pages, fun _ => inr "IMG")).

(** A PDF of one page that cannot be extracted. *)
Definition broken_pdf_env : Env :=
  sample_env is_file [] no_file (inl "not a zip") (inl "not a rar")
    (inl "not a rar") (Some (1, fun _ => inl "boom")).

(** A zip with the given members. *)
Definition zip_env (files : list zip.File) : Env :=
  sample_env is_file [] no_file (inr files) (inl "not a rar")
    (inl "not a rar") None.

(** A rar with the given listing and sequential reader. *)
Definition rar_env (files : list rardecode.File) (r : rardecode.Reader) : Env :=
  sample_env is_file [] no_file (inl "not a zip") (inr files) (inr r) None.

(** A directory with the given walk, whose files all hold [content]. *)
Definition dir_env (walk : list walk_item) (content : string) : Env :=
  sample_env (fun _ => inr true) walk (fun _ => inr content)
    (inl "not a zip") (inl "not a rar") (inl "not a rar") None.

Definition sample_e (input : string) (dry : bool) : EPUBImageProcessor :=
  {| Input := input; Dry := dry; SortPathMode := 1; Workers := 4 |}.

Definition sample_opt (input output : string) (limit : Z) : Main.Option :=
  {| Main.Input := input; Main.Output := output; Main.Profile_ := "KV";
     Main.Author := "GO Comic Converter"; Main.Title := "";
     Main.Quality := 85; Main.NoCrop := false; Main.Algo := "default";
     Main.LimitMb := limit |}.

(** [comics] and [out] are directories, every other path is a file. *)
Definition sample_Stat (path : string) : string + bool :=
  inr (String.eqb path "comics" || String.eqb path "out").

Definition sample_ALGO_GRAY (algo : string) : bool := String.eqb algo "default".

(** A zip member that is a decodable image. *)
Definition zip_image (name : string) : zip.File :=
  {| zip.Name := name; zip.IsDir := false; zip.Open := inr "IMG" |}.

(** A zip with two members of the same name. *)
Definition twice_env : Env := zip_env [zip_image "a.jpg"; zip_image "a.jpg"].

(** The same processor with [e.Dry] set. *)
Definition set_Dry (dry : bool) (e : EPUBImageProcessor) : EPUBImageProcessor :=
  {| Input := Input e; Dry := dry; SortPathMode := SortPathMode e;
     Workers := Workers e |}.





(** The jobs of a sequential pass whose entries are all read without error:
    one job per entry whose name is in the index, in the order of the
    stream, over the bytes of the entry. *)
Definition memory_jobs (indexedNames : gmap string nat)
    (entries : list (rardecode.FileHeader * string)) : list Cbr.job :=
  omap (fun p =>
          match indexedNames !! rardecode.HName (fst p) with
          | Some i =>
              Some (Cbr.Build_job i (rardecode.HName (fst p))
                      (Cbr.FromMemory (snd p)))
          | None => None
          end) entries.

Definition rar_image (name : string) (solid : bool) : rardecode.File :=
  {| rardecode.Name := name; rardecode.IsDir := false;
     rardecode.Solid := solid; rardecode.Open := inr "IMG" |}.

Definition solid_entries : list (rardecode.FileHeader * string) :=
  [(rardecode.Build_FileHeader "b.png", "IMGb");
   (rardecode.Build_FileHeader "notes.txt", "text");
   (rardecode.Build_FileHeader "a.jpg", "IMGa")].

(** A solid rar of two images and a text file. *)
Definition solid_env : Env :=
  rar_env [rar_image "b.png" true; rar_image "notes.txt" true;
           rar_image "a.jpg" true]
    {| rardecode.entries := map (fun p => (fst p, inr (snd p))) solid_entries;
       rardecode.ending := rardecode.EOF |}.

(** Opening gives an error, or decoding the opened bytes does. *)
Definition entry_fails (env : Env) (open : string + string) (err : string)
  : Prop :=
  open = inl err \/ exists f, open = inr f /\ image_Decode env f = inl err.

(** [name] occurs in [msg]. *)
Definition mentions (msg name : string) : Prop :=
  exists pre post, msg = (pre ++ name ++ post)%string.

(** Every run behind the channel [c] ends the process; when it ends by an
    exit, the status is 1 and the message is the one of [error_processing]
    for a name and an error that [culprit] holds of. *)
Definition fatal_for {I : Type} (c : chan I)
    (culprit : string -> string -> Prop) : Prop :=
  forall r,
    observes c r ->
    (forall out, r <> Closed out)
    /\ (forall code msg,
           r = Exited code msg ->
           code = 1%Z
           /\ exists name err,
               culprit name err /\ msg = error_processing name err
               /\ mentions msg name).

(** [sort.Sort] moves the names and does nothing else to them. *)
Definition sort_permutes (env : Env) : Prop :=
  forall mode names, Permutation (sortpath_By env mode names) names.

(** A zip member whose bytes are not an image. *)
Definition zip_garbage (name : string) : zip.File :=
  {| zip.Name := name; zip.IsDir := false; zip.Open := inr "garbage" |}.

Definition garbage_env : Env :=
  zip_env [zip_image "a.jpg"; zip_garbage "b.jpg"].

(** A directory with two images, walked in the order of the file system. *)
Definition comics_env : Env :=
  dir_env [WalkEntry "comics" true; WalkEntry "comics/b.png" false;
           WalkEntry "comics/a.jpg" false] "IMG".

(** The paths a walk without error keeps: those of the entries that are not
    directories and have a supported extension, in the order of the walk. *)
Definition walk_paths (items : list walk_item) : list string :=
  omap (fun it =>
          match it with
          | WalkEntry p d =>
              if negb d && isSupportedImage p then Some p else None
          | WalkError _ _ => None
          end) items.

Definition is_entry (it : walk_item) : bool :=
  match it with WalkEntry _ _ => true | WalkError _ _ => false end.
(** * Properties *)

(** ** Sanity checks of the path functions *)

Example Clean_examples :
  map Clean ["a//b/./c/.."; "/../a/"; "../../x"; ""; "a/.."; "./"; "/"; "abc/de/../../.."]
  = ["a/b"; "/a"; "../../x"; "."; "."; "."; "/"; ".."].
Proof. reflexivity. Qed.

Example Split_examples :
  map Split ["dir/sub/a.jpg"; "a.jpg"; "/a.jpg"; "dir/"]
  = [("dir/sub/", "a.jpg"); ("", "a.jpg"); ("/", "a.jpg"); ("dir/", "")].
Proof. reflexivity. Qed.

Example Base_examples :
  map Base ["dir/sub/a.jpg"; ""; "/"; "dir//"; "/comic.epub"; "..epub"]
  = ["a.jpg"; "."; "/"; "dir"; "comic.epub"; "..epub"].
Proof. reflexivity. Qed.

Example Ext_examples :
  map Ext ["a.JPG"; "dir.d/name"; "x.tar.gz"; ".cbz"; "a."; "noext"]
  = [".JPG"; ""; ".gz"; ".cbz"; "."; ""].
Proof. reflexivity. Qed.

Example Join_examples :
  map Join [["out"; "comic.epub"]; [""; "comic.epub"]; ["out/"; "..epub"]; ["/"; ".epub"]]
  = ["out/comic.epub"; "comic.epub"; "out/..epub"; "/.epub"].
Proof. reflexivity. Qed.

Example Sprintf_examples :
  map (fun p => Sprintf_opt (fst p) (snd p))
      [("%d", [120%N]); ("page %%0%dd", [3%N]); ("page %03d", [7%N]);
       ("%5d|", [42%N]); ("%02d", [123%N]); ("%d", []); ("%x", [1%N]); ("%d", [0%N])]
  = [Some "120"; Some "page %03d"; Some "page 007"; Some "   42|";
     Some "123"; None; None; Some "0"].
Proof. reflexivity. Qed.

(** ** Byte strings *)

Lemma app_s_cons (c : ascii) (a b : string) :
  (String c a ++ b)%string = String c (a ++ b).
Proof. reflexivity. Qed.

Lemma app_s_nil_l (b : string) : ("" ++ b)%string = b.
Proof. reflexivity. Qed.

(** [String.append] is kept folded by [simpl]; [ssimpl] unfolds it on
    constructors as well. *)
Ltac ssimpl := repeat (rewrite ?app_s_cons, ?app_s_nil_l; simpl).

Lemma length_app_s (a b : string) :
  String.length (a ++ b) = String.length a + String.length b.
Proof. induction a as [|c a IH]; ssimpl; [reflexivity | now rewrite IH]. Qed.

Lemma app_s_assoc (a b c : string) : ((a ++ b) ++ c = a ++ (b ++ c))%string.
Proof. induction a as [|x a IH]; ssimpl; [reflexivity | now rewrite IH]. Qed.

Lemma app_s_nil_r (a : string) : (a ++ "")%string = a.
Proof. induction a as [|x a IH]; ssimpl; [reflexivity | now rewrite IH]. Qed.

Lemma drop_s_app (a b : string) : drop_s (String.length a) (a ++ b) = b.
Proof. induction a as [|x a IH]; ssimpl; [now destruct b | exact IH]. Qed.

Lemma take_s_app (a b : string) : take_s (String.length a) (a ++ b) = a.
Proof. induction a as [|x a IH]; ssimpl; [now destruct b | now rewrite IH]. Qed.

Lemma take_drop_s (n : nat) (s : string) : (take_s n s ++ drop_s n s)%string = s.
Proof.
  revert s; induction n as [|n IH]; intros [|c s]; ssimpl; try reflexivity.
  now rewrite IH.
Qed.

Lemma length_take_s (n : nat) (s : string) :
  n <= String.length s -> String.length (take_s n s) = n.
Proof.
  revert s; induction n as [|n IH]; intros [|c s]; simpl; intros H;
    try reflexivity; try lia.
  rewrite IH; lia.
Qed.

Lemma get_app_r (a b : string) (n : nat) :
  String.get (String.length a + n) (a ++ b) = String.get n b.
Proof. induction a as [|x a IH]; ssimpl; [reflexivity | exact IH]. Qed.

Lemma get_app_l (a b : string) (n : nat) :
  n < String.length a -> String.get n (a ++ b) = String.get n a.
Proof.
  revert n; induction a as [|x a IH]; ssimpl; intros n H; [lia|].
  destruct n as [|n]; [reflexivity | apply IH; lia].
Qed.

Lemma get_lt (s : string) (n : nat) :
  n < String.length s -> exists c, String.get n s = Some c.
Proof.
  revert n; induction s as [|x s IH]; simpl; intros n H; [lia|].
  destruct n as [|n]; [eauto | apply IH; lia].
Qed.

Lemma get_ge (s : string) (n : nat) :
  String.length s <= n -> String.get n s = None.
Proof.
  revert n; induction s as [|x s IH]; simpl; intros n H; [now destruct n|].
  destruct n as [|n]; [lia | apply IH; lia].
Qed.

(** A string is empty or ends with a byte. *)
Lemma string_snoc (s : string) :
  s = "" \/ exists a c, s = (a ++ String c "")%string.
Proof.
  induction s as [|x s IH]; [now left | right].
  destruct IH as [-> | (a & c & ->)].
  - now exists "", x.
  - now exists (String x a), c.
Qed.

Lemma all_get (P : ascii -> bool) (s : string) (n : nat) (c : ascii) :
  all P s = true -> String.get n s = Some c -> P c = true.
Proof.
  revert n; induction s as [|x s IH]; simpl; intros n Hall Hget.
  - now destruct n.
  - apply andb_true_iff in Hall as [Hx Hs].
    destruct n as [|n]; [now inversion Hget; subst | eauto].
Qed.

Lemma all_app (P : ascii -> bool) (a b : string) :
  all P (a ++ b) = all P a && all P b.
Proof.
  induction a as [|x a IH]; ssimpl; [reflexivity|].
  now rewrite IH, andb_assoc.
Qed.

Lemma plain_not_sep (s : string) : all plain_byte s = true -> all not_sep s = true.
Proof.
  induction s as [|x s IH]; simpl; [reflexivity|].
  unfold plain_byte at 1, not_sep at 1.
  intros H; apply andb_true_iff in H as [H1 H2].
  apply andb_true_iff in H1 as [H1 _]. rewrite H1, IH; auto.
Qed.

(** ** filepath.Ext *)

Lemma plain_byte_get (b : string) (m : nat) (c : ascii) :
  all plain_byte b = true -> String.get m b = Some c ->
  IsPathSeparator c = false /\ Ascii.eqb c "." = false.
Proof.
  intros Hb Hg. pose proof (all_get _ _ _ _ Hb Hg) as H.
  unfold plain_byte in H. apply andb_true_iff in H as [H1 H2].
  split; [now apply negb_true_iff in H1 | now apply negb_true_iff in H2].
Qed.

(** The scan of [Ext] walks over a tail without dot or separator. *)
Lemma Ext_loop_skip (a b : string) (m : nat) :
  all plain_byte b = true -> m <= String.length b ->
  Ext_loop (a ++ b) (String.length a + m) = Ext_loop (a ++ b) (String.length a).
Proof.
  intros Hb. induction m as [|m IH]; intros Hm.
  - now rewrite Nat.add_0_r.
  - rewrite Nat.add_succ_r. simpl. rewrite get_app_r.
    destruct (get_lt b m) as [c Hc]; [lia|]. rewrite Hc.
    destruct (plain_byte_get _ _ _ Hb Hc) as [-> ->]. apply IH; lia.
Qed.

Lemma Ext_plain (b : string) : all plain_byte b = true -> Ext b = "".
Proof.
  intros Hb. unfold Ext.
  pose proof (Ext_loop_skip "" b (String.length b) Hb (le_n _)) as H.
  simpl in H. rewrite app_s_nil_l in H. exact H.
Qed.

Lemma Ext_after_sep (a b : string) :
  all plain_byte b = true -> Ext (a ++ String "/" b) = "".
Proof.
  intros Hb. unfold Ext.
  replace (a ++ String "/" b)%string with ((a ++ "/") ++ b)%string
    by (now rewrite app_s_assoc).
  rewrite length_app_s, Ext_loop_skip by (auto; lia).
  rewrite length_app_s, Nat.add_1_r. simpl.
  rewrite app_s_assoc. rewrite <- (Nat.add_0_r (String.length a)) at 1.
  rewrite get_app_r. reflexivity.
Qed.

Lemma Ext_after_dot (a b : string) :
  all plain_byte b = true -> Ext (a ++ String "." b) = String "." b.
Proof.
  intros Hb. unfold Ext.
  replace (a ++ String "." b)%string with ((a ++ ".") ++ b)%string
    by (now rewrite app_s_assoc).
  rewrite length_app_s, Ext_loop_skip by (auto; lia).
  rewrite length_app_s, Nat.add_1_r. simpl.
  rewrite app_s_assoc. rewrite <- (Nat.add_0_r (String.length a)) at 1.
  rewrite get_app_r. simpl. apply drop_s_app.
Qed.

(** Every path is a plain name, or has a last dot or separator followed by
    a plain tail. *)
Lemma last_mark (path : string) :
  all plain_byte path = true
  \/ exists a b, all plain_byte b = true
       /\ (path = (a ++ String "." b)%string \/ path = (a ++ String "/" b)%string).
Proof.
  induction path as [|c s IH]; [now left|].
  destruct IH as [Hs | (a & b & Hb & [-> | ->])].
  - destruct (plain_byte c) eqn:Hc.
    + left. simpl. now rewrite Hc.
    + right. exists "", s. split; [exact Hs|].
      unfold plain_byte in Hc. apply andb_false_iff in Hc as [Hc | Hc];
        apply negb_false_iff in Hc.
      * right. unfold IsPathSeparator in Hc. apply Ascii.eqb_eq in Hc. now subst.
      * left. apply Ascii.eqb_eq in Hc. now subst.
  - right. exists (String c a), b. split; [exact Hb | now left].
  - right. exists (String c a), b. split; [exact Hb | now right].
Qed.

(** The extension is a suffix of the path. *)
Lemma Ext_suffix (path : string) : exists stem, path = (stem ++ Ext path)%string.
Proof.
  destruct (last_mark path) as [Hp | (a & b & Hb & [-> | ->])].
  - exists path. now rewrite Ext_plain, app_s_nil_r.
  - exists a. now rewrite Ext_after_dot.
  - exists (a ++ String "/" b)%string. now rewrite Ext_after_sep, app_s_nil_r.
Qed.

Lemma Ext_plain_tail (path : string) :
  Ext path = "" \/ exists b, Ext path = String "." b /\ all plain_byte b = true.
Proof.
  destruct (last_mark path) as [Hp | (a & b & Hb & [-> | ->])].
  - left. now apply Ext_plain.
  - right. exists b. now rewrite Ext_after_dot.
  - left. now apply Ext_after_sep.
Qed.

(** ** strings.ToLower *)

Lemma lower_byte_plain (c : ascii) : plain_byte (lower_byte c) = plain_byte c.
Proof.
  destruct c as [[] [] [] [] [] [] [] []]; reflexivity.
Qed.

Lemma ToLower_plain (s : string) :
  all plain_byte (ToLower s) = all plain_byte s.
Proof.
  induction s as [|c s IH]; simpl; [reflexivity|].
  now rewrite lower_byte_plain, IH.
Qed.

Lemma lower_byte_idem (c : ascii) : lower_byte (lower_byte c) = lower_byte c.
Proof.
  destruct c as [[] [] [] [] [] [] [] []]; reflexivity.
Qed.

(** [lower_byte] moves the upper-case letters and nothing else. *)
Lemma lower_byte_spec (c : ascii) :
  let n := nat_of_ascii c in
  (65 <= n <= 90 -> nat_of_ascii (lower_byte c) = n + 32)
  /\ (n < 65 \/ 90 < n -> lower_byte c = c).
Proof.
  destruct c as [[] [] [] [] [] [] [] []]; vm_compute; split; intros; try reflexivity; lia.
Qed.

(** ** Supported images *)

Lemma isSupportedImage_ext (path : string) :
  isSupportedImage path = true
  <-> In (ToLower (Ext path)) [".jpg"; ".jpeg"; ".png"; ".webp"].
Proof.
  unfold isSupportedImage. rewrite !orb_true_iff, !String.eqb_eq. simpl.
  intuition congruence.
Qed.

Lemma image_suffixes_plain (s : string) :
  In s image_suffixes -> all plain_byte s = true.
Proof.
  unfold image_suffixes. simpl.
  intros [<- | [<- | [<- | [<- | []]]]]; reflexivity.
Qed.

Lemma ToLower_dot (b : string) : ToLower (String "." b) = String "." (ToLower b).
Proof. reflexivity. Qed.

Lemma isSupportedImage_suffix (path : string) :
  isSupportedImage path = true
  <-> exists stem suf,
        path = (stem ++ String "." suf)%string /\ In (ToLower suf) image_suffixes.
Proof.
  rewrite isSupportedImage_ext. split.
  - intros Hin. destruct (Ext_suffix path) as [stem Hstem].
    destruct (Ext_plain_tail path) as [He | (b & He & Hb)].
    + rewrite He in Hin. simpl in Hin. intuition discriminate.
    + exists stem, b. split; [now rewrite <- He|].
      rewrite He, ToLower_dot in Hin. unfold image_suffixes.
      destruct Hin as [H | [H | [H | [H | []]]]];
        injection H as H; rewrite <- H; simpl; auto.
  - intros (stem & suf & -> & Hin).
    rewrite Ext_after_dot, ToLower_dot.
    + unfold image_suffixes in Hin.
      destruct Hin as [H | [H | [H | [H | []]]]]; rewrite <- H; simpl; auto.
    + rewrite <- ToLower_plain. now apply image_suffixes_plain.
Qed.

Lemma Dir_walk_skip (pre post : list walk_item) (p : string) (d : bool)
    (images : list string) :
  isSupportedImage p = false ->
  Dir.walk (pre ++ WalkEntry p d :: post) images = Dir.walk (pre ++ post) images.
Proof.
  intros Hp. revert images. induction pre as [|[q dq | q err] pre IH]; intros images; simpl.
  - now rewrite Hp, andb_false_r.
  - apply IH.
  - reflexivity.
Qed.

Lemma Cbz_images_skip (pre post : list zip.File) (f : zip.File) :
  isSupportedImage (zip.Name f) = false ->
  Cbz.images (pre ++ f :: post) = Cbz.images (pre ++ post).
Proof.
  intros Hf. unfold Cbz.images. rewrite !List.filter_app. simpl.
  now rewrite Hf, andb_false_r.
Qed.

Lemma Cbr_images_skip (pre post : list rardecode.File) (f : rardecode.File) :
  isSupportedImage (rardecode.Name f) = false ->
  Cbr.images (pre ++ f :: post) = Cbr.images (pre ++ post).
Proof.
  intros Hf. unfold Cbr.images. rewrite !List.filter_app. simpl.
  now rewrite Hf, andb_false_r.
Qed.

(** C5.  [isSupportedImage] holds exactly of the paths whose extension, put
    in lower case, is [.jpg], [.jpeg], [.png] or [.webp]: the paths that end
    with a dot followed by one of these four words in any mix of cases.  An
    entry with another extension leaves the listing of a directory, of a zip
    and of a rar as it is without it: it adds no page and no error. *)
Theorem isSupportedImage_spec :
  (forall path,
      (isSupportedImage path = true
       <-> In (ToLower (Ext path)) [".jpg"; ".jpeg"; ".png"; ".webp"])
      /\ (isSupportedImage path = true
          <-> exists stem suf,
                path = (stem ++ String "." suf)%string
                /\ In (ToLower suf) image_suffixes))
  /\ (forall pre post p images,
         isSupportedImage p = false ->
         Dir.walk (pre ++ WalkEntry p false :: post) images
         = Dir.walk (pre ++ post) images)
  /\ (forall pre post f,
         isSupportedImage (zip.Name f) = false ->
         Cbz.images (pre ++ f :: post) = Cbz.images (pre ++ post))
  /\ (forall pre post f,
         isSupportedImage (rardecode.Name f) = false ->
         Cbr.images (pre ++ f :: post) = Cbr.images (pre ++ post)).
Proof.
  split; [|split; [|split]].
  - intros path. split; [apply isSupportedImage_ext | apply isSupportedImage_suffix].
  - intros. now apply Dir_walk_skip.
  - intros. now apply Cbz_images_skip.
  - intros. now apply Cbr_images_skip.
Qed.

(** ** Decimal output *)

Lemma digit_char_is_digit (d : N) : (d < 10)%N -> is_digit (digit_char d) = true.
Proof.
  intros H. assert (Hd : In d [0; 1; 2; 3; 4; 5; 6; 7; 8; 9]%N).
  { simpl. lia. }
  simpl in Hd. decompose [or] Hd; subst; try reflexivity; contradiction.
Qed.

Lemma digit_val_char (d : N) : (d < 10)%N -> digit_val (digit_char d) = d.
Proof.
  intros H. assert (Hd : In d [0; 1; 2; 3; 4; 5; 6; 7; 8; 9]%N).
  { simpl. lia. }
  simpl in Hd. decompose [or] Hd; subst; try reflexivity; contradiction.
Qed.

Lemma digit_char_zero (d : N) : (d < 10)%N -> digit_char d = "0"%char -> d = 0%N.
Proof.
  intros H E. apply (f_equal digit_val) in E.
  rewrite digit_val_char in E by exact H. exact E.
Qed.

Lemma decimal_app (v : N) (a b : string) :
  decimal v (a ++ b) = decimal (decimal v a) b.
Proof.
  revert v; induction a as [|c a IH]; intros v; ssimpl; [reflexivity | apply IH].
Qed.

Lemma decimal_ge (v : N) (s : string) : (v <= decimal v s)%N.
Proof.
  revert v; induction s as [|c s IH]; intros v; simpl; [lia|].
  specialize (IH (v * 10 + digit_val c)%N). lia.
Qed.

Lemma size_nat_gt (u : N) : (u < 2 ^ N.of_nat (N.size_nat u))%N.
Proof.
  destruct u as [|p]; [reflexivity|]. simpl.
  induction p as [p IH | p IH |]; simpl Pos.size_nat.
  - rewrite Nat2N.inj_succ, N.pow_succ_r'. lia.
  - rewrite Nat2N.inj_succ, N.pow_succ_r'. lia.
  - reflexivity.
Qed.

(** What the digit loop writes before [acc]: at least one digit, no leading
    zero except for [0] itself, the digits of [u] and no more. *)
Lemma itoa_loop_digits (fuel : nat) (u : N) (acc : string) :
  (u < 2 ^ N.of_nat fuel)%N ->
  exists ds,
    itoa_loop fuel u acc = (ds ++ acc)%string
    /\ all is_digit ds = true
    /\ decimal 0 ds = u
    /\ 0 < String.length ds
    /\ (u < 10 ^ N.of_nat (String.length ds))%N
    /\ (u = 0 \/ 10 ^ N.of_nat (String.length ds - 1) <= u)%N
    /\ (u <> 0%N -> exists c s, ds = String c s /\ c <> "0"%char).
Proof.
  revert u acc. induction fuel as [|f IH]; intros u acc Hu.
  - assert (u = 0%N) as -> by (simpl in Hu; lia).
    exists "0". simpl. repeat split; auto; try lia; try (intros H; contradiction).
  - simpl. destruct (10 <=? u)%N eqn:H10.
    + apply N.leb_le in H10.
      assert (Hdiv : (u / 10 < 2 ^ N.of_nat f)%N).
      { rewrite Nat2N.inj_succ, N.pow_succ_r' in Hu.
        apply N.Div0.div_lt_upper_bound. lia. }
      destruct (IH (u / 10)%N (String (digit_char (u mod 10)) acc) Hdiv)
        as (ds & Heq & Hall & Hval & Hlen & Hub & Hlb & Hnz).
      assert (Hmod : (u mod 10 < 10)%N) by (apply N.mod_lt; lia).
      assert (Hq : (1 <= u / 10)%N).
      { apply N.div_le_lower_bound; lia. }
      exists (ds ++ String (digit_char (u mod 10)) "")%string.
      rewrite Heq, app_s_assoc. ssimpl.
      rewrite all_app, Hall. simpl. rewrite digit_char_is_digit by exact Hmod.
      rewrite decimal_app, Hval. simpl. rewrite digit_val_char by exact Hmod.
      rewrite length_app_s. simpl.
      replace (String.length ds + 1 - 1) with (String.length ds) by lia.
      replace (N.of_nat (String.length ds + 1)) with (N.succ (N.of_nat (String.length ds)))
        by lia.
      rewrite N.pow_succ_r'.
      pose proof (N.div_mod u 10 ltac:(lia)) as Hdm.
      repeat split; auto; try lia.
      * right. destruct Hlb as [Hz | Hlb]; [lia|].
        replace (N.of_nat (String.length ds)) with
          (N.succ (N.of_nat (String.length ds - 1))) by lia.
        rewrite N.pow_succ_r'.
        generalize dependent (10 ^ N.of_nat (String.length ds - 1))%N.
        intros p Hp. pose proof (N.Div0.mul_div_le u 10). lia.
      * intros _. destruct Hnz as (c & s & -> & Hc); [lia|].
        exists c, (s ++ String (digit_char (u mod 10)) "")%string. now split.
    + apply N.leb_gt in H10.
      exists (String (digit_char u) ""). simpl.
      rewrite digit_char_is_digit, digit_val_char by exact H10.
      repeat split; auto; try lia.
      intros Hz. exists (digit_char u), "". split; [reflexivity|].
      intros E. apply digit_char_zero in E; auto.
Qed.

Lemma itoa_digits (u : N) :
  all is_digit (itoa u) = true
  /\ decimal 0 (itoa u) = u
  /\ 0 < String.length (itoa u)
  /\ (u < 10 ^ N.of_nat (String.length (itoa u)))%N
  /\ (u = 0 \/ 10 ^ N.of_nat (String.length (itoa u) - 1) <= u)%N
  /\ (u <> 0%N -> exists c s, itoa u = String c s /\ c <> "0"%char).
Proof.
  destruct (itoa_loop_digits (N.size_nat u) u "" (size_nat_gt u))
    as (ds & Heq & H).
  unfold itoa. rewrite Heq, app_s_nil_r. exact H.
Qed.

(** A larger number has at least as many digits. *)
Lemma itoa_length_mono (a b : N) :
  (a <= b)%N -> String.length (itoa a) <= String.length (itoa b).
Proof.
  intros Hab.
  destruct (itoa_digits a) as (_ & _ & Hla & _ & Hlb & _).
  destruct (itoa_digits b) as (_ & _ & Hlb' & Hub & _ & _).
  destruct Hlb as [-> | Hlb]; [change (itoa 0) with "0"; simpl; lia|].
  assert (H : (10 ^ N.of_nat (String.length (itoa a) - 1)
               < 10 ^ N.of_nat (String.length (itoa b)))%N) by lia.
  apply N.pow_lt_mono_r_iff in H; lia.
Qed.

(** A Go [int] has at most 19 digits. *)
Lemma itoa_length_int (u : N) :
  (u < 2 ^ 63)%N -> String.length (itoa u) <= 19.
Proof.
  intros Hu. destruct (itoa_digits u) as (_ & _ & Hl & _ & Hlb & _).
  destruct Hlb as [-> | Hlb]; [change (itoa 0) with "0"; simpl; lia|].
  assert (H : (10 ^ N.of_nat (String.length (itoa u) - 1) < 10 ^ 19)%N).
  { eapply N.le_lt_trans; [exact Hlb|]. eapply N.lt_trans; [exact Hu|]. reflexivity. }
  apply N.pow_lt_mono_r_iff in H; lia.
Qed.

(** ** fmt.Sprintf on the formats of the loader *)

Lemma parsenum_digits (ds rest : string) (v : N) (isnum : bool) :
  all is_digit ds = true -> ds <> "" ->
  (decimal v ds <= 1000000)%N ->
  (forall c r, rest = String c r -> is_digit c = false) ->
  parsenum (ds ++ rest) v isnum = Some (decimal v ds, true, rest).
Proof.
  revert v isnum. induction ds as [|c ds IH]; intros v isnum Hall Hne Hle Hrest.
  - contradiction.
  - ssimpl. simpl in Hall. apply andb_true_iff in Hall as [Hc Hds].
    rewrite Hc. simpl in Hle.
    pose proof (decimal_ge (v * 10 + digit_val c) ds) as Hge.
    destruct (1000000 <? v)%N eqn:Hv; [apply N.ltb_lt in Hv; lia|].
    destruct ds as [|d ds'].
    + ssimpl. destruct rest as [|x r]; simpl; [reflexivity|].
      now rewrite (Hrest x r eq_refl).
    + apply IH; auto; discriminate.
Qed.

Lemma flags_stop (c : ascii) (s : string) (zero : bool) :
  c <> "0"%char -> flags (String c s) zero = (zero, String c s).
Proof.
  intros Hc. destruct c as [[] [] [] [] [] [] [] []]; try reflexivity.
  now elim Hc.
Qed.

Lemma flags_zero (s : string) (zero : bool) :
  flags (String "0" s) zero = flags s true.
Proof. reflexivity. Qed.

Lemma Sprintf_loop_lit (f : nat) (c : ascii) (rest : string) (a : list N) :
  Ascii.eqb c "%" = false ->
  Sprintf_loop (S f) (String c rest) a
  = option_map (String c) (Sprintf_loop f rest a).
Proof. intros H. simpl. now rewrite H. Qed.

Lemma Sprintf_loop_d (f : nat) (rest rest1 rest3 : string) (zero widPresent : bool)
    (wid x : N) (a : list N) :
  flags rest false = (zero, rest1) ->
  parsenum rest1 0 false = Some (wid, widPresent, String "d" rest3) ->
  Sprintf_loop (S f) (String "%" rest) (x :: a)
  = option_map (String.append (fmtInteger x wid widPresent zero))
               (Sprintf_loop f rest3 a).
Proof. intros Hf Hp. simpl. now rewrite Hf, Hp. Qed.

Lemma Sprintf_loop_percent (f : nat) (rest rest1 rest3 : string)
    (zero widPresent : bool) (wid : N) (a : list N) :
  flags rest false = (zero, rest1) ->
  parsenum rest1 0 false = Some (wid, widPresent, String "%" rest3) ->
  Sprintf_loop (S f) (String "%" rest) a
  = option_map (String "%") (Sprintf_loop f rest3 a).
Proof. intros Hf Hp. simpl. now rewrite Hf, Hp. Qed.

Lemma Sprintf_loop_end (f : nat) : Sprintf_loop f "" [] = Some "".
Proof. now destruct f. Qed.

Lemma Sprintf_d (x : N) : Sprintf_opt "%d" [x] = Some (itoa x).
Proof.
  unfold Sprintf_opt. change (String.length "%d") with 2.
  rewrite (Sprintf_loop_d _ "d" "d" "" false false 0 x []) by reflexivity.
  rewrite Sprintf_loop_end. unfold fmtInteger. simpl. now rewrite app_s_nil_r.
Qed.

Lemma Sprintf_pageFmt (w : N) :
  Sprintf_opt "page %%0%dd" [w] = Some ("page %0" ++ itoa w ++ "d")%string.
Proof.
  unfold Sprintf_opt. change (String.length "page %%0%dd") with 11.
  do 5 (rewrite Sprintf_loop_lit by reflexivity).
  rewrite (Sprintf_loop_percent _ "%0%dd" "%0%dd" "0%dd" false false 0 [w])
    by reflexivity.
  rewrite Sprintf_loop_lit by reflexivity.
  rewrite (Sprintf_loop_d _ "dd" "dd" "d" false false 0 w []) by reflexivity.
  rewrite Sprintf_loop_lit by reflexivity.
  rewrite Sprintf_loop_end. reflexivity.
Qed.

Lemma Sprintf_page (w v : N) :
  (0 < w <= 1000000)%N ->
  Sprintf_opt ("page %0" ++ itoa w ++ "d") [v]
  = Some ("page " ++ fmtInteger v w true true)%string.
Proof.
  intros Hw. unfold Sprintf_opt.
  destruct (itoa_digits w) as (Hall & Hval & Hlen & _ & _ & Hnz).
  destruct Hnz as (c & s & Hcs & Hc); [lia|].
  change ("page %0" ++ itoa w ++ "d")%string
    with (String "p" (String "a" (String "g" (String "e" (String " "
           (String "%" (String "0" (itoa w ++ "d")))))))).
  change (String.length (String "p" (String "a" (String "g" (String "e" (String " "
           (String "%" (String "0" (itoa w ++ "d")))))))))
    with (S (S (S (S (S (S (S (String.length (itoa w ++ "d"))))))))).
  do 5 (rewrite Sprintf_loop_lit by reflexivity).
  rewrite Sprintf_loop_d
    with (rest1 := (itoa w ++ "d")%string) (rest3 := EmptyString)
         (zero := true) (widPresent := true) (wid := w).
  - rewrite Sprintf_loop_end. simpl. now rewrite app_s_nil_r.
  - rewrite flags_zero, Hcs, app_s_cons. now apply flags_stop.
  - rewrite parsenum_digits.
    + now rewrite Hval.
    + exact Hall.
    + rewrite Hcs. discriminate.
    + rewrite Hval. lia.
    + intros x r E. injection E as <- _. reflexivity.
Qed.

Lemma Sprintf_some (format : string) (a : list N) (s : string) :
  Sprintf_opt format a = Some s -> Sprintf format a = s.
Proof. unfold Sprintf. now intros ->. Qed.

Lemma decimal_zeros (k : nat) (v : N) (s : string) :
  decimal 0 (repeat_s "0" k ++ s) = decimal 0 s.
Proof. induction k as [|k IH]; ssimpl; [reflexivity | exact IH]. Qed.

Lemma all_digit_zeros (k : nat) : all is_digit (repeat_s "0" k) = true.
Proof. induction k as [|k IH]; simpl; [reflexivity | exact IH]. Qed.

Lemma length_repeat_s (c : ascii) (k : nat) : String.length (repeat_s c k) = k.
Proof. induction k as [|k IH]; simpl; [reflexivity | now rewrite IH]. Qed.

(** ** loadPdf *)

Section Pdf.
Context (env : Env) (e : EPUBImageProcessor).
Context (Extract : nat -> string + image env) (pageFmt : string).

Let page_triple (k : nat) : nat * string * string :=
  (k, "", Sprintf pageFmt [N.of_nat (k + 1)]).

(** A loop that runs to the end has sent one task per page, in the order
    of the pages. *)
Lemma Pdf_loop_closed (n i : nat) (out out' : list (tasks (image env))) :
  Pdf_loop env e Extract pageFmt n i out = Closed out' ->
  map triple out' = (map triple out ++ map page_triple (seq i n))%list.
Proof.
  revert i out. induction n as [|n IH]; intros i out; simpl.
  - intros [= <-]. now rewrite app_nil_r.
  - destruct (if Dry e then _ else _) as [err | img]; [discriminate|].
    intros H. apply IH in H. rewrite H, map_app, <- app_assoc. reflexivity.
Qed.

(** A dry run never calls [Extract]. *)
Lemma Pdf_loop_dry (n i : nat) (out : list (tasks (image env))) :
  Dry e = true ->
  Pdf_loop env e Extract pageFmt n i out
  = Closed (out ++ map (fun k => Build_tasks (image env) k None ""
                                   (Sprintf pageFmt [N.of_nat (k + 1)]))
                       (seq i n)).
Proof.
  intros Hdry. revert i out. induction n as [|n IH]; intros i out; simpl.
  - now rewrite app_nil_r.
  - rewrite Hdry, IH, <- app_assoc. reflexivity.
Qed.

(** The loop ends well when every page can be extracted. *)
Lemma Pdf_loop_total (n i : nat) (out : list (tasks (image env))) :
  (forall k, i < k <= i + n -> exists img, Extract k = inr img) ->
  exists out', Pdf_loop env e Extract pageFmt n i out = Closed out'.
Proof.
  revert i out. induction n as [|n IH]; intros i out Hok; simpl; [eauto|].
  destruct (Dry e).
  - apply IH. intros k Hk. apply Hok. lia.
  - destruct (Hok (i + 1)) as [img ->]; [lia|].
    apply IH. intros k Hk. apply Hok. lia.
Qed.

(** The loop of a real run stops at the first page that cannot be
    extracted, with the error of [Extract] alone on [os.Stderr]. *)
Lemma Pdf_loop_fatal (n i : nat) (out : list (tasks (image env))) (k : nat)
    (err : string) :
  Dry e = false -> i < k <= i + n -> Extract k = inl err ->
  exists k' err',
    i < k' <= k /\ Extract k' = inl err'
    /\ Pdf_loop env e Extract pageFmt n i out = Exited 1 (err' ++ nl).
Proof.
  intros Hdry. revert i out. induction n as [|n IH]; intros i out Hk Herr.
  - lia.
  - simpl. rewrite Hdry. destruct (Extract (i + 1)) as [err1 | img] eqn:H1.
    + exists (i + 1), err1. repeat split; auto; lia.
    + assert (k <> i + 1) by congruence.
      destruct (IH (S i) (out ++ [Build_tasks (image env) i (Some img) ""
                                   (Sprintf pageFmt [N.of_nat (i + 1)])])%list)
        as (k' & err' & Hk' & He & Hl); [lia | exact Herr |].
      exists k', err'. repeat split; auto; lia.
Qed.
End Pdf.

(** The format [loadPdf] builds, and what it prints. *)
Lemma pageFmt_modelled (totalImages : nat) (v : N) :
  (N.of_nat totalImages < 2 ^ 63)%N ->
  let w := String.length (itoa (N.of_nat totalImages)) in
  let pageFmt :=
    Sprintf "page %%0%dd"
      [N.of_nat (String.length (Sprintf "%d" [N.of_nat totalImages]))] in
  Sprintf_opt "%d" [N.of_nat totalImages] = Some (itoa (N.of_nat totalImages))
  /\ Sprintf_opt "page %%0%dd" [N.of_nat w] = Some pageFmt
  /\ Sprintf_opt pageFmt [v]
     = Some ("page " ++ repeat_s "0" (w - String.length (itoa v)) ++ itoa v)%string.
Proof.
  intros Hint w pageFmt. subst pageFmt.
  rewrite (Sprintf_some _ _ _ (Sprintf_d _)). fold w.
  rewrite (Sprintf_some _ _ _ (Sprintf_pageFmt _)).
  split; [apply Sprintf_d | split; [apply Sprintf_pageFmt|]].
  pose proof (itoa_length_int _ Hint) as H19. fold w in H19.
  destruct (itoa_digits (N.of_nat totalImages)) as (_ & _ & Hpos & _).
  fold w in Hpos.
  rewrite Sprintf_page by lia.
  unfold fmtInteger. now rewrite Nat2N.id.
Qed.

Lemma map_eq_lookup {A B C : Type} (f : A -> C) (g : B -> C)
    (l1 : list A) (l2 : list B) (i : nat) (a : A) :
  map f l1 = map g l2 -> l1 !! i = Some a ->
  exists b, l2 !! i = Some b /\ f a = g b.
Proof.
  revert l2 i. induction l1 as [|x l1 IH]; intros [|y l2] i Hmap Hl;
    try discriminate.
  injection Hmap as Hxy Hmap. destruct i as [|i]; simpl in Hl.
  - injection Hl as <-. exists y. now split.
  - apply (IH l2 i Hmap Hl).
Qed.

Lemma observes_direct {I : Type} (r r' : run I) : observes (Direct r) r' -> r' = r.
Proof. exact (fun H => H). Qed.

(** C6.  For a PDF of [totalImages] pages, the task of the page of index
    [i] is named ["page "] followed by the decimal digits of [i+1], completed
    on the left with zeros to exactly as many digits as [totalImages] has. *)
Theorem loadPdf_page_name (env : Env) (e : EPUBImageProcessor)
    (totalImages : nat) (Extract : nat -> string + image env) :
  pdfread_Load env (Input e) = Some (totalImages, Extract) ->
  (N.of_nat totalImages < 2 ^ 63)%N ->
  let w := String.length (itoa (N.of_nat totalImages)) in
  (N.of_nat totalImages < 10 ^ N.of_nat w)%N
  /\ (totalImages = 0 \/ (10 ^ N.of_nat (w - 1) <= N.of_nat totalImages)%N)
  /\ exists c,
      loadPdf env e = Loaded totalImages c
      /\ forall out i t,
          observes c (Closed out) -> out !! i = Some t ->
          Id t = i
          /\ exists zeros,
              Name t
              = ("page " ++ repeat_s "0" zeros ++ itoa (N.of_nat (i + 1)))%string
              /\ String.length (repeat_s "0" zeros ++ itoa (N.of_nat (i + 1))) = w
              /\ all is_digit (repeat_s "0" zeros ++ itoa (N.of_nat (i + 1))) = true
              /\ decimal 0 (repeat_s "0" zeros ++ itoa (N.of_nat (i + 1)))
                 = N.of_nat (i + 1).
Proof.
  intros Hload Hint w.
  destruct (itoa_digits (N.of_nat totalImages)) as (_ & _ & _ & Hub & Hlb & _).
  split; [exact Hub | split; [destruct Hlb; [left; lia | now right] |]].
  unfold loadPdf. rewrite Hload. eexists. split; [reflexivity|].
  intros out i t Hobs Hi. apply observes_direct in Hobs.
  symmetry in Hobs. apply Pdf_loop_closed in Hobs. simpl in Hobs.
  destruct (map_eq_lookup _ _ _ _ _ _ Hobs Hi) as (k & Hk & Ht).
  apply lookup_seq in Hk as [-> Hlt]. simpl in Ht.
  unfold triple in Ht. injection Ht as HId HPath HName.
  split; [exact HId|].
  destruct (pageFmt_modelled totalImages (N.of_nat (i + 1)) Hint) as (_ & _ & Hfmt).
  apply Sprintf_some in Hfmt. fold w in Hfmt.
  exists (w - String.length (itoa (N.of_nat (i + 1)))).
  split; [now rewrite HName, Hfmt|].
  pose proof (itoa_length_mono (N.of_nat (i + 1)) (N.of_nat totalImages)
                ltac:(lia)) as Hmono. fold w in Hmono.
  destruct (itoa_digits (N.of_nat (i + 1))) as (Hall & Hval & _).
  rewrite length_app_s, length_repeat_s, all_app, all_digit_zeros, Hall.
  rewrite decimal_zeros by exact 0%N.
  repeat split; auto. lia.
Qed.

(** C10.  [loadPdf] returns a channel fed by one goroutine and no pool; a run
    that reaches the end of a PDF of [totalImages] pages has sent the tasks
    of identifiers [0, 1, ..., totalImages-1] in that order, all with an
    empty [Path]; a dry run and a run whose pages can all be extracted
    reach the end. *)
Theorem loadPdf_sequential (env : Env) (e : EPUBImageProcessor)
    (totalImages : nat) (Extract : nat -> string + image env) :
  pdfread_Load env (Input e) = Some (totalImages, Extract) ->
  exists r,
    loadPdf env e = Loaded totalImages (Direct r)
    /\ (forall out, r = Closed out ->
          map Id out = seq 0 totalImages /\ Forall (fun t => Path t = "") out)
    /\ (Dry e = true
        \/ (forall k, 0 < k <= totalImages -> exists img, Extract k = inr img) ->
        exists out, r = Closed out).
Proof.
  intros Hload. unfold loadPdf. rewrite Hload. eexists.
  split; [reflexivity | split].
  - intros out Hout. apply Pdf_loop_closed in Hout. simpl in Hout.
    split.
    + apply (f_equal (map (fun p => fst (fst p)))) in Hout.
      rewrite !map_map in Hout. simpl in Hout. rewrite map_id in Hout.
      exact Hout.
    + apply List.Forall_forall. intros t Ht.
      apply (f_equal (map (fun p => snd (fst p)))) in Hout.
      rewrite !map_map in Hout. simpl in Hout.
      assert (Hin : In (Path t) (map (fun x => Path x) out)) by now apply in_map.
      rewrite Hout in Hin. apply in_map_iff in Hin as (k & Hk & _). now symmetry.
  - intros [Hdry | Hok].
    + rewrite Pdf_loop_dry by exact Hdry. eauto.
    + apply Pdf_loop_total. intros k Hk. apply Hok. lia.
Qed.

(** ** filepath.Split and filepath.Base *)

Lemma not_sep_get (b : string) (m : nat) (c : ascii) :
  all not_sep b = true -> String.get m b = Some c -> IsPathSeparator c = false.
Proof.
  intros Hb Hg. pose proof (all_get _ _ _ _ Hb Hg) as H.
  now apply negb_true_iff in H.
Qed.

Lemma back_to_sep_skip (a b : string) (m : nat) :
  all not_sep b = true -> m <= String.length b ->
  back_to_sep (a ++ b) (String.length a + m) = back_to_sep (a ++ b) (String.length a).
Proof.
  intros Hb. induction m as [|m IH]; intros Hm.
  - now rewrite Nat.add_0_r.
  - rewrite Nat.add_succ_r. simpl. rewrite get_app_r.
    destruct (get_lt b m) as [c Hc]; [lia|]. rewrite Hc.
    rewrite (not_sep_get _ _ _ Hb Hc). apply IH; lia.
Qed.

Lemma back_to_sep_dir (dir b : string) :
  dir_part dir ->
  back_to_sep (dir ++ b) (String.length dir) = String.length dir.
Proof.
  intros [-> | (d & ->)]; [reflexivity|].
  rewrite length_app_s, Nat.add_1_r. simpl.
  rewrite app_s_assoc, <- (Nat.add_0_r (String.length d)) at 1.
  rewrite get_app_r. reflexivity.
Qed.

Lemma Split_app (dir file : string) :
  dir_part dir -> all not_sep file = true -> Split (dir ++ file) = (dir, file).
Proof.
  intros Hd Hf. unfold Split.
  rewrite length_app_s, back_to_sep_skip, back_to_sep_dir by auto.
  now rewrite take_s_app, drop_s_app.
Qed.

Lemma split_exists (p : string) :
  exists dir file, p = (dir ++ file)%string /\ dir_part dir /\ all not_sep file = true.
Proof.
  induction p as [|c p (dir & file & -> & Hd & Hf)].
  - exists "", "". repeat split; auto. now left.
  - destruct Hd as [-> | (d & ->)].
    + destruct (IsPathSeparator c) eqn:Hc.
      * exists (String c ""), file. repeat split; auto.
        right. exists "". unfold IsPathSeparator in Hc.
        apply Ascii.eqb_eq in Hc. now subst.
      * exists "", (String c file). repeat split; [now left|].
        simpl. unfold not_sep at 1. now rewrite Hc.
    + exists (String c (d ++ "/")), file. repeat split; auto.
      right. now exists (String c d).
Qed.

Lemma Ext_Split (dir file : string) :
  dir_part dir -> all not_sep file = true -> Ext (dir ++ file) = Ext file.
Proof.
  intros Hd Hf.
  destruct (last_mark file) as [Hp | (a & b & Hb & [-> | ->])].
  - rewrite (Ext_plain file Hp).
    destruct Hd as [-> | (d & ->)]; [now apply Ext_plain|].
    rewrite app_s_assoc. now apply Ext_after_sep.
  - rewrite <- app_s_assoc. now rewrite !Ext_after_dot.
  - rewrite all_app in Hf. apply andb_true_iff in Hf as [_ Hf].
    simpl in Hf. discriminate.
Qed.

Lemma take_s_all (s : string) : take_s (String.length s) s = s.
Proof.
  pose proof (take_s_app s "") as H. now rewrite app_s_nil_r in H.
Qed.

Lemma strip_trailing_sep_none (a : string) (c : ascii) :
  IsPathSeparator c = false ->
  let path := (a ++ String c "")%string in
  strip_trailing_sep path (String.length path) = path.
Proof.
  intros Hc path. subst path. rewrite length_app_s, Nat.add_1_r. simpl.
  rewrite <- (Nat.add_0_r (String.length a)) at 1. rewrite get_app_r. simpl.
  rewrite Hc. pose proof (take_s_all (a ++ String c "")) as H.
  now rewrite length_app_s, Nat.add_1_r in H.
Qed.

(** [Base] of a path whose last element is [file], with no separator
    behind it. *)
Lemma Base_app (dir file : string) (c : ascii) :
  dir_part dir -> all not_sep (file ++ String c "") = true ->
  Base (dir ++ file ++ String c "") = (file ++ String c "")%string.
Proof.
  intros Hd Hf. unfold Base.
  assert (Hc : IsPathSeparator c = false).
  { rewrite all_app in Hf. apply andb_true_iff in Hf as [_ Hf]. simpl in Hf.
    rewrite andb_true_r in Hf. now apply negb_true_iff in Hf. }
  destruct (String.eqb_spec (dir ++ file ++ String c "") "") as [E | _].
  { apply (f_equal String.length) in E. rewrite !length_app_s in E.
    simpl in E. lia. }
  rewrite <- app_s_assoc, (strip_trailing_sep_none _ c Hc), app_s_assoc.
  rewrite length_app_s, back_to_sep_skip, back_to_sep_dir, drop_s_app by auto.
  destruct (String.eqb_spec (file ++ String c "") "") as [E | _]; [|reflexivity].
  apply (f_equal String.length) in E. rewrite length_app_s in E. simpl in E. lia.
Qed.

Lemma Ext_epub (x : string) : Ext (x ++ ".epub") = ".epub".
Proof. now apply Ext_after_dot. Qed.

(** A string ends in [.epub] exactly when [Ext] says so. *)
Lemma Ext_epub_iff (s : string) :
  Ext s = ".epub" <-> exists stem, s = (stem ++ ".epub")%string.
Proof.
  split.
  - intros H. destruct (Ext_suffix s) as [stem Hs]. exists stem. now rewrite <- H.
  - intros [stem ->]. apply Ext_epub.
Qed.

(** Removing the extension of a path removes it from its last element. *)
Lemma strip_ext_Split (dir file : string) :
  dir_part dir -> all not_sep file = true ->
  let p := (dir ++ file)%string in
  exists stem,
    file = (stem ++ Ext file)%string
    /\ all not_sep stem = true
    /\ take_s (String.length p - String.length (Ext p)) p = (dir ++ stem)%string
    /\ take_s (String.length file - String.length (Ext file)) file = stem.
Proof.
  intros Hd Hf p. subst p. rewrite (Ext_Split dir file Hd Hf).
  destruct (Ext_suffix file) as [stem Hs]. exists stem.
  assert (Hstem : all not_sep stem = true).
  { rewrite Hs, all_app in Hf. now apply andb_true_iff in Hf as [Hf _]. }
  repeat split; auto.
  - rewrite Hs at 1 3. rewrite <- app_s_assoc.
    replace (String.length ((dir ++ stem) ++ Ext file) - String.length (Ext file))
      with (String.length (dir ++ stem)) by (rewrite !length_app_s; lia).
    apply take_s_app.
  - rewrite Hs at 1 3.
    replace (String.length (stem ++ Ext file) - String.length (Ext file))
      with (String.length stem) by (rewrite !length_app_s; lia).
    apply take_s_app.
Qed.

(** ** Maps from names to positions *)

(** The maps [indexedNames] and [ProfilesIdx] are filled in the order of a
    slice: the position stored under a key is the last one that holds it. *)
Section IndexMap.
Context {A : Type} (key : A -> string).

Let fill (m0 : gmap string nat) (l : list (nat * A)) : gmap string nat :=
  foldl (fun m p => <[key (snd p) := fst p]> m) m0 l.

Lemma fill_lookup (l : list A) (m0 : gmap string nat) (j0 : nat)
    (k : string) (i : nat) :
  fill m0 (imap (fun i x => (j0 + i, x)) l) !! k = Some i ->
  (m0 !! k = Some i /\ Forall (fun x => key x <> k) l)
  \/ exists x, j0 <= i /\ l !! (i - j0) = Some x /\ key x = k
              /\ Forall (fun y => key y <> k) (drop (S (i - j0)) l).
Proof.
  revert m0 j0. induction l as [|x l IH]; intros m0 j0; simpl.
  - intros H. left. split; [exact H | constructor].
  - intros H.
    rewrite (imap_ext _ (fun i y => (S j0 + i, y))) in H
      by (intros; simpl; f_equal; lia).
    apply IH in H as [[H Hall] | (y & Hle & Hy & Hk & Hall)].
    + rewrite Nat.add_0_r in H. destruct (decide (key x = k)) as [E | E].
      * rewrite E, lookup_insert_eq in H. injection H as <-.
        right. exists x. rewrite Nat.sub_diag. simpl. repeat split; auto.
      * rewrite lookup_insert_ne in H by exact E.
        left. split; [exact H | now constructor].
    + right. exists y. replace (i - j0) with (S (i - S j0)) by lia.
      simpl. repeat split; auto. lia.
Qed.

Lemma fill_lookup_None (l : list A) (m0 : gmap string nat) (j0 : nat)
    (k : string) :
  fill m0 (imap (fun i x => (j0 + i, x)) l) !! k = None ->
  m0 !! k = None /\ Forall (fun x => key x <> k) l.
Proof.
  revert m0 j0. induction l as [|x l IH]; intros m0 j0; simpl.
  - intros H. split; [exact H | constructor].
  - intros H.
    rewrite (imap_ext _ (fun i y => (S j0 + i, y))) in H
      by (intros; simpl; f_equal; lia).
    apply IH in H as [H Hall].
    destruct (decide (key x = k)) as [E | E].
    + rewrite E, lookup_insert_eq in H. discriminate.
    + rewrite lookup_insert_ne in H by exact E. split; [exact H | now constructor].
Qed.
End IndexMap.

Lemma indexNames_lookup (names : list string) (k : string) (i : nat) :
  indexNames names !! k = Some i ->
  names !! i = Some k /\ Forall (fun y => y <> k) (drop (S i) names).
Proof.
  unfold indexNames. intros H.
  rewrite (imap_ext _ (fun i x => (0 + i, x))) in H by reflexivity.
  apply (fill_lookup (fun x => x)) in H
    as [[H _] | (x & _ & Hx & Hk & Hall)].
  - rewrite lookup_empty in H. discriminate.
  - rewrite Nat.sub_0_r in Hx, Hall. subst x. now split.
Qed.

Lemma indexNames_lookup_None (names : list string) (k : string) :
  indexNames names !! k = None -> ~ In k names.
Proof.
  unfold indexNames. intros H.
  rewrite (imap_ext _ (fun i x => (0 + i, x))) in H by reflexivity.
  apply (fill_lookup_None (fun x => x)) in H as [_ Hall].
  intros Hin. rewrite List.Forall_forall in Hall. now apply (Hall k Hin).
Qed.

Lemma ProfilesIdx_lookup (code : string) (idx : nat) :
  Main.ProfilesIdx !! code = Some idx ->
  exists profile, Main.Profiles !! idx = Some profile /\ Main.Code profile = code.
Proof.
  unfold Main.ProfilesIdx. intros H.
  rewrite (imap_ext _ (fun i x => (0 + i, x))) in H by reflexivity.
  apply (fill_lookup Main.Code) in H as [[H _] | (x & _ & Hx & Hk & _)].
  - rewrite lookup_empty in H. discriminate.
  - rewrite Nat.sub_0_r in Hx. eauto.
Qed.

(** ** main: the size limit and the output path *)

Section MainChecks.
Import Main.
Context (Stat : string -> string + bool) (ALGO_GRAY : string -> bool).

Ltac case_main :=
  repeat match goal with
         | |- context [match ?x with _ => _ end] =>
             lazymatch x with
             | context [LimitMb] => fail
             | _ => destruct x eqn:?
             end
         end.

Lemma main_limit_rejected (l : Z) (opt : Option) :
  (0 < l < 20)%Z ->
  exists msg, main Stat ALGO_GRAY (with_LimitMb l opt) = Exit 1 msg.
Proof.
  intros Hl. unfold main, with_LimitMb.
  cbn [Input Output Profile_ Author Title Quality NoCrop Algo LimitMb].
  assert (Hc : ((0 <? l) && (l <? 20))%Z = true).
  { apply andb_true_iff. split; apply Z.ltb_lt; lia. }
  rewrite Hc. case_main; eauto.
  match goal with
  | H : ProfilesIdx !! _ = Some _ |- _ =>
      destruct (ProfilesIdx_lookup _ _ H) as (p & Hp & _); congruence
  end.
Qed.

Lemma main_limit_accepted (l : Z) (opt : Option) :
  (l = 0 \/ 20 <= l)%Z ->
  main Stat ALGO_GRAY (with_LimitMb l opt)
  = limit_outcome l (main Stat ALGO_GRAY (with_LimitMb 0 opt)).
Proof.
  intros Hl. unfold main, with_LimitMb.
  cbn [Input Output Profile_ Author Title Quality NoCrop Algo LimitMb].
  assert (Hc : ((0 <? l) && (l <? 20))%Z = false).
  { apply andb_false_iff.
    destruct Hl; [left; apply Z.ltb_ge | right; apply Z.ltb_ge]; lia. }
  rewrite Hc. change ((0 <? 0)%Z && (0 <? 20)%Z) with false.
  case_main; reflexivity.
Qed.

(** What [main] does with options that are valid, the limit aside. *)
Lemma main_valid (opt : Option) (isDir : bool) (idx : nat) (out : string) :
  Input opt <> "" ->
  Stat (Input opt) = inr isDir ->
  settle_Output Stat (defaultOutput isDir (Input opt)) (Output opt) = inr out ->
  ProfilesIdx !! Profile_ opt = Some idx ->
  ALGO_GRAY (Algo opt) = true ->
  exists o,
    EInput o = Input opt /\ EOutput o = out /\ ELimitMb o = LimitMb opt
    /\ main Stat ALGO_GRAY opt
       = if ((0 <? LimitMb opt) && (LimitMb opt <? 20))%Z
         then Exit 1 ("LimitMb should be 0 or >= 20" ++ nl)
         else Write o.
Proof.
  intros Hin Hstat Hout Hidx Halgo. unfold main.
  destruct (String.eqb_spec (Input opt) "") as [E | _]; [contradiction|].
  rewrite Hstat, Hout, Hidx.
  destruct (ProfilesIdx_lookup _ _ Hidx) as (profile & -> & _).
  rewrite Halgo. cbn [negb]. eexists.
  split; [|split; [|split]]; [| | | reflexivity]; reflexivity.
Qed.

(** C8.  A limit strictly between 0 and 20 makes [main] exit with status 1
    before the conversion starts, whatever the other options, and on the
    message about [LimitMb] when these are valid.  The limit 0 and every
    limit of 20 or more pass: valid options start the conversion with
    that limit, and the outcome is the one of the same options without a
    limit. *)
Theorem LimitMb_floor (l : Z) (opt : Option) :
  ((0 < l < 20)%Z ->
   exists msg, main Stat ALGO_GRAY (with_LimitMb l opt) = Exit 1 msg)
  /\ ((l = 0 \/ 20 <= l)%Z ->
      main Stat ALGO_GRAY (with_LimitMb l opt)
      = limit_outcome l (main Stat ALGO_GRAY (with_LimitMb 0 opt)))
  /\ (forall isDir idx out,
         Input opt <> "" ->
         Stat (Input opt) = inr isDir ->
         settle_Output Stat (defaultOutput isDir (Input opt)) (Output opt)
         = inr out ->
         ProfilesIdx !! Profile_ opt = Some idx ->
         ALGO_GRAY (Algo opt) = true ->
         ((0 < l < 20)%Z ->
          main Stat ALGO_GRAY (with_LimitMb l opt)
          = Exit 1 ("LimitMb should be 0 or >= 20" ++ nl))
         /\ ((l = 0 \/ 20 <= l)%Z ->
             exists o, ELimitMb o = l
                       /\ main Stat ALGO_GRAY (with_LimitMb l opt) = Write o)).
Proof.
  split; [apply main_limit_rejected | split; [apply main_limit_accepted|]].
  intros isDir idx out Hin Hstat Hout Hidx Halgo.
  destruct (main_valid (with_LimitMb l opt) isDir idx out Hin Hstat Hout Hidx Halgo)
    as (o & _ & _ & Hl & Hmain).
  unfold with_LimitMb at 2 3 in Hmain. unfold with_LimitMb in Hl.
  cbn [LimitMb] in Hmain, Hl. split; intros Hcase.
  - rewrite Hmain.
    replace ((0 <? l) && (l <? 20))%Z with true; [reflexivity|].
    symmetry. apply andb_true_iff. split; apply Z.ltb_lt; lia.
  - exists o. split; [exact Hl|]. rewrite Hmain.
    replace ((0 <? l) && (l <? 20))%Z with false; [reflexivity|].
    symmetry. apply andb_false_iff.
    destruct Hcase; [left | right]; apply Z.ltb_ge; lia.
Qed.

(** The default output is the default name in the directory of the cleaned
    input; it ends in [.epub]. *)
Lemma defaultOutput_name (isDir : bool) (input : string) :
  defaultOutput isDir input
  = (fst (Split (Clean input)) ++ default_name isDir input)%string
  /\ Base (defaultOutput isDir input) = default_name isDir input
  /\ Ext (defaultOutput isDir input) = ".epub".
Proof.
  unfold defaultOutput, default_name.
  destruct (split_exists (Clean input)) as (dir & file & Hp & Hd & Hf).
  rewrite Hp, (Split_app dir file Hd Hf). simpl fst. simpl snd.
  assert (Hname : forall stem, all not_sep stem = true ->
            Base (dir ++ stem ++ ".epub") = (stem ++ ".epub")%string).
  { intros stem Hs.
    change ".epub"%string with (".epu" ++ "b")%string.
    rewrite <- (app_s_assoc stem). apply Base_app; [exact Hd|].
    rewrite !all_app, Hs. reflexivity. }
  destruct isDir.
  - split; [apply app_s_assoc | split; [|apply Ext_epub]].
    rewrite app_s_assoc. now apply Hname.
  - destruct (strip_ext_Split dir file Hd Hf) as (stem & _ & Hs & Hp1 & Hp2).
    cbv zeta in Hp1. rewrite Hp1, Hp2.
    split; [apply app_s_assoc | split; [|apply Ext_epub]].
    rewrite app_s_assoc. now apply Hname.
Qed.

Lemma settle_Output_empty (isDir : bool) (input : string) :
  settle_Output Stat (defaultOutput isDir input) ""
  = inr (defaultOutput isDir input).
Proof.
  unfold settle_Output. simpl.
  destruct (defaultOutput_name isDir input) as (_ & _ & ->). reflexivity.
Qed.

Lemma settle_Output_dir (isDir : bool) (input output : string) :
  output <> "" -> (forall stem, output <> (stem ++ ".epub")%string) ->
  Stat output = inr true ->
  settle_Output Stat (defaultOutput isDir input) output
  = inr (Join [output; default_name isDir input]).
Proof.
  intros Hne Hext Hstat. unfold settle_Output.
  destruct (String.eqb_spec output "") as [E | _]; [contradiction|].
  destruct (String.eqb_spec (Ext output) ".epub") as [E | _].
  - apply Ext_epub_iff in E as [stem E]. now elim (Hext stem).
  - simpl. rewrite Hstat.
    destruct (defaultOutput_name isDir input) as (_ & -> & _). reflexivity.
Qed.

(** C9.  With valid options, an output that does not end in [.epub] and
    names an existing directory becomes that directory joined with the
    default name: the last element of the cleaned input, without its
    extension for a file, followed by [.epub].  An empty output becomes
    that name in the directory of the cleaned input. *)
Theorem output_default_name (opt : Option) (isDir : bool) (idx : nat) :
  Input opt <> "" ->
  Stat (Input opt) = inr isDir ->
  ProfilesIdx !! Profile_ opt = Some idx ->
  ALGO_GRAY (Algo opt) = true ->
  ~ (0 < LimitMb opt < 20)%Z ->
  (Output opt <> "" ->
   (forall stem, Output opt <> (stem ++ ".epub")%string) ->
   Stat (Output opt) = inr true ->
   exists o,
     main Stat ALGO_GRAY opt = Write o
     /\ EOutput o = Join [Output opt; default_name isDir (Input opt)])
  /\ (Output opt = "" ->
      exists o,
        main Stat ALGO_GRAY opt = Write o
        /\ EOutput o
           = (fst (Split (Clean (Input opt)))
              ++ default_name isDir (Input opt))%string).
Proof.
  intros Hin Hstat Hidx Halgo Hlim.
  assert (Hc : ((0 <? LimitMb opt) && (LimitMb opt <? 20))%Z = false).
  { apply andb_false_iff.
    destruct (Z.ltb_spec 0 (LimitMb opt)); [right | now left].
    apply Z.ltb_ge. lia. }
  split.
  - intros Hne Hext Hdir.
    destruct (main_valid opt isDir idx _ Hin Hstat
                (settle_Output_dir isDir (Input opt) (Output opt) Hne Hext Hdir)
                Hidx Halgo) as (o & _ & Ho & _ & Hmain).
    exists o. rewrite Hmain, Hc. now split.
  - intros Hempty.
    assert (Hs : settle_Output Stat (defaultOutput isDir (Input opt)) (Output opt)
                 = inr (defaultOutput isDir (Input opt))).
    { rewrite Hempty. apply settle_Output_empty. }
    destruct (main_valid opt isDir idx _ Hin Hstat Hs Hidx Halgo)
      as (o & _ & Ho & _ & Hmain).
    exists o. rewrite Hmain, Hc. split; [reflexivity|].
    rewrite Ho. now destruct (defaultOutput_name isDir (Input opt)) as (-> & _).
Qed.
End MainChecks.

(** ** Examples of the theorems above *)

Lemma isSupportedImage_spec_witness :
  isSupportedImage "comics/notes.txt" = false
  /\ Dir.walk ([WalkEntry "comics/1.JPG" false]
               ++ WalkEntry "comics/notes.txt" false
                  :: [WalkEntry "comics/2.png" false]) []
     = inr ["comics/1.JPG"; "comics/2.png"].
Proof.
  split; [reflexivity|].
  rewrite (proj1 (proj2 isSupportedImage_spec)); reflexivity.
Defined.

Lemma loadPdf_page_name_witness :
  exists c,
    loadPdf (pdf_env 120) (sample_e "comic.pdf" true) = Loaded 120 c
    /\ exists out t,
        observes c (Closed out) /\ out !! 6 = Some t /\ Name t = "page 007".
Proof.
  destruct (loadPdf_page_name (pdf_env 120) (sample_e "comic.pdf" true) 120
              (fun _ => inr "IMG") eq_refl ltac:(vm_compute; reflexivity))
    as (_ & _ & c & Hc & _).
  exists c. split; [exact Hc|].
  vm_compute in Hc. injection Hc as <-.
  eexists. eexists. split; [reflexivity|]. split; reflexivity.
Defined.

Lemma loadPdf_sequential_witness :
  exists r out,
    loadPdf (pdf_env 3) (sample_e "comic.pdf" false) = Loaded 3 (Direct r)
    /\ r = Closed out /\ map Id out = [0; 1; 2].
Proof.
  destruct (loadPdf_sequential (pdf_env 3) (sample_e "comic.pdf" false) 3
              (fun _ => inr "IMG") eq_refl) as (r & Hr & Hids & Hok).
  destruct Hok as [out Hout].
  { right. intros k _. now exists "IMG". }
  exists r, out. split; [exact Hr | split; [exact Hout|]].
  now destruct (Hids out Hout).
Defined.

Lemma LimitMb_floor_witness :
  (exists msg,
      Main.main sample_Stat sample_ALGO_GRAY (sample_opt "comics/a.cbz" "" 5)
      = Main.Exit 1 msg)
  /\ (exists o,
         Main.ELimitMb o = 20%Z
         /\ Main.main sample_Stat sample_ALGO_GRAY (sample_opt "comics/a.cbz" "" 20)
            = Main.Write o).
Proof.
  pose proof (LimitMb_floor sample_Stat sample_ALGO_GRAY 5
                (sample_opt "comics/a.cbz" "" 0)) as H5.
  pose proof (LimitMb_floor sample_Stat sample_ALGO_GRAY 20
                (sample_opt "comics/a.cbz" "" 0)) as H20.
  split.
  - apply (proj1 H5). lia.
  - destruct H20 as (_ & _ & H).
    destruct (H false 7 "comics/a.epub") as [_ Hw];
      try reflexivity; try discriminate.
    apply Hw. right. lia.
Defined.

Lemma output_default_name_witness :
  (exists o,
      Main.main sample_Stat sample_ALGO_GRAY (sample_opt "comics/a.cbz" "out" 0)
      = Main.Write o
      /\ Main.EOutput o = "out/a.epub")
  /\ (exists o,
         Main.main sample_Stat sample_ALGO_GRAY (sample_opt "comics/a.cbz" "" 0)
         = Main.Write o
         /\ Main.EOutput o = "comics/a.epub").
Proof.
  split.
  - destruct (output_default_name sample_Stat sample_ALGO_GRAY
                (sample_opt "comics/a.cbz" "out" 0) false 7) as [H _];
      try reflexivity; try discriminate; [simpl; lia|].
    apply H; try reflexivity; try discriminate.
    intros stem E. apply (f_equal Ext) in E. rewrite Ext_epub in E. discriminate.
  - destruct (output_default_name sample_Stat sample_ALGO_GRAY
                (sample_opt "comics/a.cbz" "" 0) false 7) as [_ H];
      try reflexivity; try discriminate; [simpl; lia|].
    apply H. reflexivity.
Defined.

(** ** The sequence of identifiers *)

Lemma Forall2_Emit_inv {I J : Type} (worker : J -> step (tasks I))
    (jobs : list J) (ts : list (tasks I)) :
  Forall2 (fun j t => worker j = Emit t) jobs ts ->
  map Emit ts = map worker jobs.
Proof.
  induction 1 as [|j t jobs ts Hj _ IH]; simpl; [reflexivity|].
  now rewrite Hj, IH.
Qed.

(** C1, at an archive with two members named [a.jpg].  [loadCbz] counts two
    images and queues two jobs, both with identifier 1: the map from names
    to positions keeps one position per name.  Every run that closes has
    sent the identifiers 1 and 1, which are not 0 and 1. *)
Theorem loadCbz_duplicate_names :
  let e := sample_e "comic.cbz" false in
  let c := Pool Cbz.job 2
             [Cbz.Build_job 1 (zip_image "a.jpg");
              Cbz.Build_job 1 (zip_image "a.jpg")]
             Closes (Cbz.worker twice_env e) in
  load twice_env e = Loaded 2 c
  /\ (exists out, observes c (Closed out))
  /\ forall out,
      observes c (Closed out) ->
      map Id out = [1; 1] /\ ~ Permutation (map Id out) (seq 0 2).
Proof.
  intros e c. split; [vm_compute; reflexivity | split].
  - exists [Build_tasks string 1 (Some "IMG") "" "a.jpg";
            Build_tasks string 1 (Some "IMG") "" "a.jpg"].
    unfold observes, c. simpl.
    eapply obs_closed; [reflexivity | | reflexivity].
    repeat constructor.
  - intros out Hobs. unfold observes, c in Hobs. simpl in Hobs.
    inversion Hobs as [ts out' _ Hts Hperm | | | |]; subst.
    apply Forall2_Emit_inv in Hts. vm_compute in Hts.
    destruct ts as [|t1 [|t2 [|]]]; try discriminate.
    injection Hts as -> ->.
    assert (Hids : Permutation [1; 1] (map Id out)).
    { change [1; 1] with
        (map Id [Build_tasks string 1 (Some "IMG") "" "a.jpg";
                 Build_tasks string 1 (Some "IMG") "" "a.jpg"]).
      now apply Permutation_map. }
    apply Permutation_length_2_inv in Hids.
    assert (E : map Id out = [1; 1]) by (destruct Hids; assumption).
    split; [exact E|]. rewrite E. intros Hp.
    apply Permutation_length_2_inv in Hp. destruct Hp; discriminate.
Qed.

(** ** No image found *)

(** C2, at a PDF that loads and has no page.  [loadPdf] has no test of
    [totalImages]: it returns no error, a count of zero and a channel that
    is closed empty, where the other loaders return [errNoImagesFound]. *)
Theorem loadPdf_zero_pages :
  load (pdf_env 0) (sample_e "comic.pdf" false) = Loaded 0 (Direct (Closed []))
  /\ load (zip_env []) (sample_e "comic.cbz" false) = LoadError errNoImagesFound
  /\ load (rar_env [] (rardecode.Build_Reader [] rardecode.EOF))
          (sample_e "comic.cbr" false)
     = LoadError errNoImagesFound
  /\ load (dir_env [WalkEntry "comics" true] "IMG") (sample_e "comics" false)
     = LoadError errNoImagesFound.
Proof. repeat split; vm_compute; reflexivity. Qed.

(** The three loaders that list names refuse a container without any
    supported image. *)
Lemma load_no_images (env : Env) (e : EPUBImageProcessor) :
  (Dir.walk (filepath_WalkDir env (Clean (Input e))) [] = inr [] ->
   loadDir env e = LoadError errNoImagesFound)
  /\ (forall files,
         zip_OpenReader env (Input e) = inr files -> Cbz.images files = [] ->
         loadCbz env e = LoadError errNoImagesFound)
  /\ (forall files,
         rardecode_List env (Input e) = inr files -> Cbr.images files = [] ->
         loadCbr env e = LoadError errNoImagesFound).
Proof.
  split; [|split].
  - intros H. unfold loadDir. now rewrite H.
  - intros files H Himg. unfold loadCbz. now rewrite H, Himg.
  - intros files H Himg. unfold loadCbr. now rewrite H, Himg.
Qed.

(** ** Schedules *)

Lemma drain_jobs_observed {I J : Type} (worker : J -> step (tasks I))
    (jobs : list J) (fin : producer_end) (out0 : list (tasks I)) :
  match drain_jobs worker jobs fin out0 with
  | Closed out =>
      fin = Closes
      /\ exists ts, out = (out0 ++ ts)%list
                    /\ Forall2 (fun j t => worker j = Emit t) jobs ts
  | Exited code msg =>
      code = 1%Z
      /\ ((exists j, In j jobs /\ worker j = Exit1 msg) \/ fin = ProducerExit msg)
  | Panicked => (exists j, In j jobs /\ worker j = Panic) \/ fin = ProducerPanic
  end.
Proof.
  revert out0. induction jobs as [|j jobs IH]; intros out0; simpl.
  - destruct fin; simpl; auto.
    split; [reflexivity|]. exists []. now rewrite app_nil_r.
  - destruct (worker j) as [t | msg |] eqn:Hj.
    + specialize (IH (out0 ++ [t])%list).
      destruct (drain_jobs worker jobs fin (out0 ++ [t])) as [out | code msg |].
      * destruct IH as (Hfin & ts & -> & Hts). split; [exact Hfin|].
        exists (t :: ts). rewrite <- app_assoc. split; [reflexivity|].
        now constructor.
      * destruct IH as (Hc & [(j' & Hin & Hj') | Hfin]); split; auto.
        left. exists j'. split; [now right | exact Hj'].
      * destruct IH as [(j' & Hin & Hj') | Hfin]; auto.
        left. exists j'. split; [now right | exact Hj'].
    + split; [reflexivity|]. left. exists j. split; [now left | exact Hj].
    + left. exists j. split; [now left | exact Hj].
Qed.

(** The run with a single worker is one of the runs of the pool. *)
Lemma drain_observed {I : Type} (c : chan I) : observes c (drain c).
Proof.
  destruct c as [J workers jobs fin worker | r]; simpl; [|reflexivity].
  destruct (0 <? workers)%Z; [|reflexivity].
  pose proof (drain_jobs_observed worker jobs fin []) as H.
  destruct (drain_jobs worker jobs fin []) as [out | code msg |].
  - destruct H as (Hfin & ts & -> & Hts). now apply (obs_closed _ _ _ ts).
  - destruct H as (-> & [(j & Hin & Hj) | Hfin]).
    + now apply (obs_worker_exit _ _ _ j).
    + now apply obs_producer_exit.
  - destruct H as [(j & Hin & Hj) | Hfin].
    + now apply (obs_worker_panic _ _ _ j).
    + now apply obs_producer_panic.
Qed.



(** ** Dry runs *)


Lemma decode_never_panics (env : Env) (e : EPUBImageProcessor) (name : string)
    (open : string + string) :
  decode env e name open <> Panic.
Proof.
  unfold decode. destruct (Dry e); [discriminate|].
  destruct open as [err | f]; [discriminate|].
  destruct (image_Decode env f); discriminate.
Qed.















(** ** The sequential pass over a solid rar *)

Lemma Cbr_stream_memory (indexedNames : gmap string nat)
    (entries : list (rardecode.FileHeader * string)) :
  Cbr.stream indexedNames (map (fun p => (fst p, inr (snd p))) entries)
             rardecode.EOF
  = (memory_jobs indexedNames entries, Closes).
Proof.
  unfold memory_jobs.
  induction entries as [|[f b] entries IH]; simpl; [reflexivity|].
  destruct (indexedNames !! rardecode.HName f); [|exact IH].
  now rewrite IH.
Qed.

Lemma existsb_length {A : Type} (f : A -> bool) (l : list A) :
  existsb f l = true -> (length l =? 0) = false.
Proof. destruct l; [discriminate | reflexivity]. Qed.

Lemma loadCbr_solid_load (env : Env) (e : EPUBImageProcessor)
    (files : list rardecode.File) (r : rardecode.Reader)
    (entries : list (rardecode.FileHeader * string)) :
  Dry e = false ->
  rardecode_List env (Input e) = inr files ->
  existsb rardecode.Solid (Cbr.images files) = true ->
  rardecode_OpenReader env (Input e) = inr r ->
  rardecode.entries r = map (fun p => (fst p, inr (snd p))) entries ->
  rardecode.ending r = rardecode.EOF ->
  let indexedNames :=
    indexNames (sortpath_By env (SortPathMode e)
                  (map rardecode.Name (Cbr.images files))) in
  let jobs := memory_jobs indexedNames entries in
  Cbr.producer env e true files indexedNames = (jobs, Closes, 1)
  /\ loadCbr env e
     = Loaded (length (Cbr.images files))
         (Pool Cbr.job (WorkersRatio env (Workers e) 50) jobs Closes
               (Cbr.worker env e)).
Proof.
  intros Hdry Hlist Hsolid Hopen Hentries Hending indexedNames jobs.
  assert (Hprod : Cbr.producer env e true files indexedNames = (jobs, Closes, 1)).
  { unfold Cbr.producer. rewrite Hdry, Hopen, Hentries, Hending. simpl.
    now rewrite Cbr_stream_memory. }
  split; [exact Hprod|].
  unfold loadCbr. rewrite Hlist, Hsolid, length_map.
  rewrite (existsb_length _ _ Hsolid). fold indexedNames.
  now rewrite Hprod.
Qed.

(** C4.  For a rar with a solid image and a real run, the goroutine that
    fills the queue opens one sequential reader and the jobs hold no opener
    of the archive.  When every entry is read without error up to [io.EOF],
    it queues one job per entry whose name is in the index, in the order of
    the stream, with the position of that name and a reader over the copied
    bytes; the other entries give no job; and it ends by closing the queue,
    not by an exit. *)
Theorem loadCbr_solid (env : Env) (e : EPUBImageProcessor)
    (files : list rardecode.File) (r : rardecode.Reader)
    (entries : list (rardecode.FileHeader * string)) :
  Dry e = false ->
  rardecode_List env (Input e) = inr files ->
  existsb rardecode.Solid (Cbr.images files) = true ->
  rardecode_OpenReader env (Input e) = inr r ->
  rardecode.entries r = map (fun p => (fst p, inr (snd p))) entries ->
  rardecode.ending r = rardecode.EOF ->
  let indexedNames :=
    indexNames (sortpath_By env (SortPathMode e)
                  (map rardecode.Name (Cbr.images files))) in
  let jobs := memory_jobs indexedNames entries in
  Cbr.producer env e true files indexedNames = (jobs, Closes, 1)
  /\ loadCbr env e
     = Loaded (length (Cbr.images files))
         (Pool Cbr.job (WorkersRatio env (Workers e) 50) jobs Closes
               (Cbr.worker env e))
  /\ Forall (fun j => exists p,
                 In p entries
                 /\ Cbr.Name j = rardecode.HName (fst p)
                 /\ indexedNames !! Cbr.Name j = Some (Cbr.Id j)
                 /\ Cbr.Open j = Cbr.FromMemory (snd p)
                 /\ Cbr.call (Cbr.Open j) = inr (snd p)) jobs
  /\ map Cbr.Name jobs
     = List.filter (fun n => match indexedNames !! n with
                             | Some _ => true
                             | None => false
                             end)
                   (map (fun p => rardecode.HName (fst p)) entries).
Proof.
  intros Hdry Hlist Hsolid Hopen Hentries Hending indexedNames jobs.
  destruct (loadCbr_solid_load env e files r entries Hdry Hlist Hsolid Hopen
              Hentries Hending) as [Hprod Hload].
  split; [exact Hprod | split; [exact Hload | split]].
  - subst jobs. unfold memory_jobs. clear.
    induction entries as [|[f b] entries IH]; simpl; [constructor|].
    destruct (indexedNames !! rardecode.HName f) as [i|] eqn:Hi.
    + constructor.
      * exists (f, b). simpl. repeat split; auto.
      * eapply List.Forall_impl; [|exact IH].
        intros j (p & Hin & H). exists p. split; [now right | exact H].
    + eapply List.Forall_impl; [|exact IH].
      intros j (p & Hin & H). exists p. split; [now right | exact H].
  - subst jobs. unfold memory_jobs. clear.
    induction entries as [|[f b] entries IH]; simpl; [reflexivity|].
    destruct (indexedNames !! rardecode.HName f) as [i|] eqn:Hi; simpl;
      [f_equal; exact IH | exact IH].
Qed.

Lemma loadCbr_solid_witness :
  exists c,
    loadCbr solid_env (sample_e "comic.cbr" false) = Loaded 2 c
    /\ drain c
       = Closed [Build_tasks string 1 (Some "IMGb") "" "b.png";
                 Build_tasks string 0 (Some "IMGa") "" "a.jpg"].
Proof.
  destruct (loadCbr_solid solid_env (sample_e "comic.cbr" false)
              [rar_image "b.png" true; rar_image "notes.txt" true;
               rar_image "a.jpg" true]
              {| rardecode.entries :=
                   map (fun p => (fst p, inr (snd p))) solid_entries;
                 rardecode.ending := rardecode.EOF |}
              solid_entries eq_refl eq_refl eq_refl eq_refl eq_refl eq_refl)
    as (_ & Hload & _).
  eexists. split; [exact Hload|]. vm_compute. reflexivity.
Defined.

(** ** Failures of single pages *)

Lemma error_processing_mentions (name err : string) :
  mentions (error_processing name err) name.
Proof.
  exists (nl ++ "error processing image ")%string, (": " ++ err ++ nl)%string.
  unfold error_processing. now rewrite !app_s_assoc.
Qed.

Lemma decode_fails (env : Env) (e : EPUBImageProcessor) (name : string)
    (open : string + string) (err : string) :
  Dry e = false -> entry_fails env open err ->
  decode env e name open = Exit1 (error_processing name err).
Proof.
  intros Hdry [-> | (f & -> & Hf)]; unfold decode; rewrite Hdry;
    [reflexivity | now rewrite Hf].
Qed.

Lemma decode_Exit1 (env : Env) (e : EPUBImageProcessor) (name : string)
    (open : string + string) (msg : string) :
  decode env e name open = Exit1 msg ->
  exists err, entry_fails env open err /\ msg = error_processing name err.
Proof.
  unfold decode. destruct (Dry e); [discriminate|].
  destruct open as [err | f].
  - intros [= <-]. exists err. split; [now left | reflexivity].
  - destruct (image_Decode env f) as [err | img] eqn:Hf; [|discriminate].
    intros [= <-]. exists err. split; [right; eauto | reflexivity].
Qed.

Lemma Dir_worker_Exit1 (env : Env) (e : EPUBImageProcessor) (input : string)
    (j : Dir.job) (msg : string) :
  Dir.worker env e input j = Exit1 msg
  <-> decode env e (Dir.Path j) (os_Open env (Dir.Path j)) = Exit1 msg.
Proof.
  unfold Dir.worker.
  destruct (decode env e _ _) as [img | m |]; try (split; discriminate).
  - destruct (Split _) as [p fn].
    destruct (if String.eqb p input then _ else _); split; discriminate.
  - split; intros [= ->]; reflexivity.
Qed.

Lemma Cbz_worker_Exit1 (env : Env) (e : EPUBImageProcessor)
    (j : Cbz.job) (msg : string) :
  Cbz.worker env e j = Exit1 msg
  <-> decode env e (zip.Name (Cbz.F j)) (zip.Open (Cbz.F j)) = Exit1 msg.
Proof.
  unfold Cbz.worker.
  destruct (decode env e _ _) as [img | m |]; try (split; discriminate).
  split; intros [= ->]; reflexivity.
Qed.

Lemma Cbr_worker_Exit1 (env : Env) (e : EPUBImageProcessor)
    (j : Cbr.job) (msg : string) :
  Cbr.worker env e j = Exit1 msg
  <-> decode env e (Cbr.Name j) (Cbr.call (Cbr.Open j)) = Exit1 msg.
Proof.
  unfold Cbr.worker.
  destruct (decode env e _ _) as [img | m |]; try (split; discriminate).
  split; intros [= ->]; reflexivity.
Qed.

(** A pool with a job that fails never closes its channel, and an exit
    carries the message of a failing job when the producer cannot fail. *)
Lemma pool_fatal {I J : Type} (workers : Z)
    (w : J -> step (tasks I)) (jobs : list J)
    (culprit : string -> string -> Prop) (j : J) (msg0 : string) :
  (0 < workers)%Z ->
  In j jobs -> w j = Exit1 msg0 ->
  (forall j' msg,
      In j' jobs -> w j' = Exit1 msg ->
      exists name err, culprit name err /\ msg = error_processing name err) ->
  fatal_for (Pool J workers jobs Closes w) culprit.
Proof.
  intros Hw Hin Hj Hculprit r Hobs. simpl in Hobs.
  apply Z.ltb_lt in Hw. rewrite Hw in Hobs.
  inversion Hobs as [ts out _ Hts _ | j' msg Hin' Hj' | j' Hin' Hj'
                     | msg Hfin | Hfin]; subst; try discriminate.
  - exfalso. clear - Hts Hin Hj.
    induction Hts as [|x y l l' Hx _ IH]; [contradiction|].
    destruct Hin as [-> | Hin]; [congruence | auto].
  - split; [discriminate|]. intros code msg' [= <- <-]. split; [reflexivity|].
    destruct (Hculprit j' msg Hin' Hj') as (name & err & Hc & ->).
    exists name, err. repeat split; auto. apply error_processing_mentions.
  - split; discriminate.
Qed.

Lemma In_Dir_jobs (images : list string) (j : Dir.job) :
  In j (Dir_jobs images)
  <-> exists i, images !! i = Some (Dir.Path j) /\ Dir.Id j = i.
Proof.
  unfold Dir_jobs. rewrite <- list_elem_of_In, elem_of_lookup_imap. split.
  - intros (i & path & -> & Hi). now exists i.
  - intros (i & Hi & <-). exists (Dir.Id j), (Dir.Path j). now destruct j.
Qed.

Lemma loadDir_fatal (env : Env) (e : EPUBImageProcessor) (n : nat)
    (c : chan (image env)) (images : list string) (path err : string) :
  Dry e = false -> (0 < WorkersRatio env (Workers e) 50)%Z ->
  Dir.walk (filepath_WalkDir env (Clean (Input e))) [] = inr images ->
  loadDir env e = Loaded n c ->
  In path images -> sort_permutes env ->
  entry_fails env (os_Open env path) err ->
  fatal_for c (fun name er =>
                 In name images /\ entry_fails env (os_Open env name) er).
Proof.
  intros Hdry Hw Hwalk Hload Hin Hsort Hfail. unfold loadDir in Hload.
  rewrite Hwalk in Hload. destruct (length images =? 0); [discriminate|].
  injection Hload as <- <-.
  set (sorted := sortpath_By env (SortPathMode e) images).
  assert (Hin' : In path sorted).
  { apply (Permutation_in _ (Permutation_sym (Hsort _ images))). exact Hin. }
  apply list_elem_of_In, list_elem_of_lookup in Hin' as [i Hi].
  apply (pool_fatal _ _ _ _ (Dir.Build_job i path)
           (error_processing path err) Hw).
  - apply In_Dir_jobs. now exists i.
  - apply Dir_worker_Exit1. simpl. now apply decode_fails.
  - intros j' msg Hj' Hmsg. apply Dir_worker_Exit1, decode_Exit1 in Hmsg
      as (er & Her & ->).
    exists (Dir.Path j'), er. repeat split; auto.
    apply In_Dir_jobs in Hj' as (i' & Hi' & _).
    apply (Permutation_in _ (Hsort (SortPathMode e) images)).
    apply list_elem_of_In, list_elem_of_lookup. eauto.
Qed.

Lemma loadCbz_fatal (env : Env) (e : EPUBImageProcessor) (n : nat)
    (c : chan (image env)) (files : list zip.File) (f : zip.File)
    (err : string) :
  Dry e = false -> (0 < WorkersRatio env (Workers e) 50)%Z ->
  zip_OpenReader env (Input e) = inr files ->
  loadCbz env e = Loaded n c ->
  In f (Cbz.images files) ->
  entry_fails env (zip.Open f) err ->
  fatal_for c (fun name er =>
                 exists f', In f' (Cbz.images files) /\ zip.Name f' = name
                            /\ entry_fails env (zip.Open f') er).
Proof.
  intros Hdry Hw Hopen Hload Hin Hfail. unfold loadCbz in Hload.
  rewrite Hopen in Hload.
  destruct (length (Cbz.images files) =? 0); [discriminate|].
  injection Hload as <- <-.
  eapply (pool_fatal _ _ _ _ _ (error_processing (zip.Name f) err) Hw).
  - apply in_map. exact Hin.
  - apply Cbz_worker_Exit1. simpl. now apply decode_fails.
  - intros j' msg Hj' Hmsg. apply Cbz_worker_Exit1, decode_Exit1 in Hmsg
      as (er & Her & ->).
    apply in_map_iff in Hj' as (f' & <- & Hf').
    exists (zip.Name f'), er. split; [|reflexivity]. exists f'. auto.
Qed.

Lemma In_memory_jobs (indexedNames : gmap string nat)
    (entries : list (rardecode.FileHeader * string)) (j : Cbr.job) :
  In j (memory_jobs indexedNames entries)
  <-> exists p i,
        In p entries /\ indexedNames !! rardecode.HName (fst p) = Some i
        /\ j = Cbr.Build_job i (rardecode.HName (fst p)) (Cbr.FromMemory (snd p)).
Proof.
  unfold memory_jobs. rewrite <- list_elem_of_In, list_elem_of_omap. split.
  - intros (p & Hp & Hj). apply list_elem_of_In in Hp.
    destruct (indexedNames !! rardecode.HName (fst p)) as [i|] eqn:Hi;
      [|discriminate].
    injection Hj as <-. now exists p, i.
  - intros (p & i & Hp & Hi & ->). exists p. rewrite list_elem_of_In, Hi.
    now split.
Qed.

Lemma loadCbr_solid_fatal (env : Env) (e : EPUBImageProcessor) (n : nat)
    (c : chan (image env)) (files : list rardecode.File) (r : rardecode.Reader)
    (entries : list (rardecode.FileHeader * string))
    (p : rardecode.FileHeader * string) (err : string) :
  Dry e = false -> (0 < WorkersRatio env (Workers e) 50)%Z ->
  rardecode_List env (Input e) = inr files ->
  existsb rardecode.Solid (Cbr.images files) = true ->
  rardecode_OpenReader env (Input e) = inr r ->
  rardecode.entries r = map (fun p => (fst p, inr (snd p))) entries ->
  rardecode.ending r = rardecode.EOF ->
  loadCbr env e = Loaded n c ->
  In p entries ->
  is_Some (indexNames (sortpath_By env (SortPathMode e)
                         (map rardecode.Name (Cbr.images files)))
           !! rardecode.HName (fst p)) ->
  image_Decode env (snd p) = inl err ->
  fatal_for c (fun name er =>
                 exists p', In p' entries /\ rardecode.HName (fst p') = name
                            /\ image_Decode env (snd p') = inl er).
Proof.
  intros Hdry Hw Hlist Hsolid Hopen Hentries Hending Hload Hin [i Hi] Hfail.
  destruct (loadCbr_solid_load env e files r entries Hdry Hlist Hsolid Hopen
              Hentries Hending) as [_ Hload'].
  rewrite Hload' in Hload. injection Hload as <- <-.
  eapply (pool_fatal _ _ _ _
            (Cbr.Build_job i (rardecode.HName (fst p)) (Cbr.FromMemory (snd p)))
            (error_processing (rardecode.HName (fst p)) err) Hw).
  - apply In_memory_jobs. now exists p, i.
  - apply Cbr_worker_Exit1. simpl. apply decode_fails; [exact Hdry|].
    right. eauto.
  - intros j' msg Hj' Hmsg. apply Cbr_worker_Exit1, decode_Exit1 in Hmsg
      as (er & Her & ->).
    apply In_memory_jobs in Hj' as (p' & i' & Hp' & _ & ->). simpl in *.
    exists (rardecode.HName (fst p')), er. split; [|reflexivity].
    exists p'. repeat split; auto.
    destruct Her as [Her | (f & [= <-] & Her)]; [discriminate | exact Her].
Qed.

Lemma loadCbr_listed_fatal (env : Env) (e : EPUBImageProcessor) (n : nat)
    (c : chan (image env)) (files : list rardecode.File) (f : rardecode.File)
    (err : string) :
  Dry e = false -> (0 < WorkersRatio env (Workers e) 50)%Z ->
  rardecode_List env (Input e) = inr files ->
  existsb rardecode.Solid (Cbr.images files) = false ->
  loadCbr env e = Loaded n c ->
  In f (Cbr.images files) -> sort_permutes env ->
  entry_fails env (rardecode.Open f) err ->
  fatal_for c (fun name er =>
                 exists f', In f' files /\ rardecode.Name f' = name
                            /\ entry_fails env (rardecode.Open f') er).
Proof.
  intros Hdry Hw Hlist Hsolid Hload Hin Hsort Hfail. unfold loadCbr in Hload.
  rewrite Hlist, Hsolid in Hload.
  destruct (length _ =? 0); [discriminate|].
  unfold Cbr.producer in Hload. simpl in Hload. injection Hload as <- <-.
  set (idx := indexNames _).
  assert (Hf : In f files).
  { unfold Cbr.images in Hin. now apply filter_In in Hin. }
  destruct (idx !! rardecode.Name f) as [i|] eqn:Hi.
  - eapply (pool_fatal _ _ _ _
              (Cbr.Build_job i (rardecode.Name f) (Cbr.FromArchive f))
              (error_processing (rardecode.Name f) err) Hw).
    + apply list_elem_of_In, list_elem_of_omap. exists f.
      rewrite list_elem_of_In, Hi. now split.
    + apply Cbr_worker_Exit1. simpl. now apply decode_fails.
    + intros j' msg Hj' Hmsg. apply Cbr_worker_Exit1, decode_Exit1 in Hmsg
        as (er & Her & ->).
      apply list_elem_of_In, list_elem_of_omap in Hj' as (f' & Hf' & Hj').
      apply list_elem_of_In in Hf'.
      destruct (idx !! rardecode.Name f') as [i'|]; [|discriminate].
      injection Hj' as <-. simpl in *.
      exists (rardecode.Name f'), er. split; [|reflexivity]. exists f'. auto.
  - exfalso. apply indexNames_lookup_None in Hi. apply Hi.
    apply (Permutation_in _ (Permutation_sym (Hsort _ _))).
    now apply in_map.
Qed.

Lemma not_mentions_longer (msg name : string) :
  String.length msg < String.length name -> ~ mentions msg name.
Proof.
  intros Hlen (pre & post & E). apply (f_equal String.length) in E.
  rewrite !length_app_s in E. lia.
Qed.

(** C7, at a PDF whose only page cannot be extracted.  The page is the one
    a dry run names [page 1]; the real run exits with status 1 on the error
    of the extraction alone, which names neither the page nor the file.
    The three other loaders name the entry that failed: the member of a
    zip, the entry of a rar, the path of a file of a directory. *)
Lemma pdf_failure_unnamed :
  let e := sample_e "comic.pdf" false in
  load broken_pdf_env e = Loaded 1 (Direct (Exited 1 ("boom" ++ nl)))
  /\ load broken_pdf_env (set_Dry true e)
     = Loaded 1 (Direct (Closed [Build_tasks string 0 None "" "page 1"]))
  /\ ~ mentions ("boom" ++ nl) "page 1"
  /\ ~ mentions ("boom" ++ nl) "comic.pdf"
  /\ (exists c,
         load garbage_env (sample_e "comic.cbz" false) = Loaded 2 c
         /\ drain c
            = Exited 1 (error_processing "b.jpg" "image: unknown format"))
  /\ (exists c,
         load (rar_env [rardecode.Build_File "a.jpg" false false (inr "garbage")]
                 (rardecode.Build_Reader [] rardecode.EOF))
              (sample_e "comic.cbr" false) = Loaded 1 c
         /\ drain c
            = Exited 1 (error_processing "a.jpg" "image: unknown format"))
  /\ (exists c,
         load (dir_env [WalkEntry "comics" true;
                        WalkEntry "comics/a.jpg" false] "garbage")
              (sample_e "comics" false) = Loaded 1 c
         /\ drain c
            = Exited 1
                (error_processing "comics/a.jpg" "image: unknown format"))
  /\ mentions (error_processing "b.jpg" "image: unknown format") "b.jpg".
Proof.
  split; [vm_compute; reflexivity|].
  split; [vm_compute; reflexivity|].
  split; [apply not_mentions_longer; vm_compute; lia|].
  split; [apply not_mentions_longer; vm_compute; lia|].
  split; [eexists; split; vm_compute; reflexivity|].
  split; [eexists; split; vm_compute; reflexivity|].
  split; [eexists; split; vm_compute; reflexivity|].
  exists (nl ++ "error processing image ")%string,
         (": image: unknown format" ++ nl)%string.
  vm_compute. reflexivity.
Qed.

(** X21.  In a real run with at least one worker, a page of a
    directory, of a zip or of a rar that cannot be opened or decoded ends
    the process: no run closes the channel, and a run that ends by an exit
    has status 1 and the message [error processing image] with the path or
    name of a page that failed and its error.  For a PDF the run exits with
    status 1 at the first page that cannot be extracted, and the message is
    the error of the extraction alone. *)
Theorem decode_failure_fatal (env : Env) (e : EPUBImageProcessor) :
  Dry e = false ->
  (0 < WorkersRatio env (Workers e) 50)%Z ->
  (forall n c images path err,
      Dir.walk (filepath_WalkDir env (Clean (Input e))) [] = inr images ->
      loadDir env e = Loaded n c ->
      In path images -> sort_permutes env ->
      entry_fails env (os_Open env path) err ->
      fatal_for c (fun name er =>
                     In name images /\ entry_fails env (os_Open env name) er))
  /\ (forall n c files f err,
         zip_OpenReader env (Input e) = inr files ->
         loadCbz env e = Loaded n c ->
         In f (Cbz.images files) ->
         entry_fails env (zip.Open f) err ->
         fatal_for c (fun name er =>
                        exists f', In f' (Cbz.images files)
                                   /\ zip.Name f' = name
                                   /\ entry_fails env (zip.Open f') er))
  /\ (forall n c files f err,
         rardecode_List env (Input e) = inr files ->
         existsb rardecode.Solid (Cbr.images files) = false ->
         loadCbr env e = Loaded n c ->
         In f (Cbr.images files) -> sort_permutes env ->
         entry_fails env (rardecode.Open f) err ->
         fatal_for c (fun name er =>
                        exists f', In f' files /\ rardecode.Name f' = name
                                   /\ entry_fails env (rardecode.Open f') er))
  /\ (forall n c files r entries p err,
         rardecode_List env (Input e) = inr files ->
         existsb rardecode.Solid (Cbr.images files) = true ->
         rardecode_OpenReader env (Input e) = inr r ->
         rardecode.entries r = map (fun p => (fst p, inr (snd p))) entries ->
         rardecode.ending r = rardecode.EOF ->
         loadCbr env e = Loaded n c ->
         In p entries ->
         is_Some (indexNames (sortpath_By env (SortPathMode e)
                                (map rardecode.Name (Cbr.images files)))
                  !! rardecode.HName (fst p)) ->
         image_Decode env (snd p) = inl err ->
         fatal_for c (fun name er =>
                        exists p', In p' entries
                                   /\ rardecode.HName (fst p') = name
                                   /\ image_Decode env (snd p') = inl er))
  /\ (forall pages Extract k err,
         pdfread_Load env (Input e) = Some (pages, Extract) ->
         0 < k <= pages -> Extract k = inl err ->
         exists k' err',
           0 < k' <= k /\ Extract k' = inl err'
           /\ loadPdf env e = Loaded pages (Direct (Exited 1 (err' ++ nl)))).
Proof.
  intros Hdry Hw. split; [|split; [|split; [|split]]].
  - intros. eapply loadDir_fatal; eauto.
  - intros. eapply loadCbz_fatal; eauto.
  - intros. eapply loadCbr_listed_fatal; eauto.
  - intros. eapply loadCbr_solid_fatal; eauto.
  - intros pages Extract k err Hload Hk Herr. unfold loadPdf. rewrite Hload.
    destruct (Pdf_loop_fatal env e Extract
                (Sprintf "page %%0%dd"
                   [N.of_nat (String.length (Sprintf "%d" [N.of_nat pages]))])
                pages 0 [] k err Hdry ltac:(lia) Herr)
      as (k' & err' & Hk' & He & Hloop).
    exists k', err'. rewrite Hloop. repeat split; auto; lia.
Qed.

Lemma decode_failure_fatal_witness :
  exists c,
    loadCbz garbage_env (sample_e "comic.cbz" false) = Loaded 2 c
    /\ drain c
       = Exited 1 (error_processing "b.jpg" "image: unknown format")
    /\ forall r out, observes c r -> r <> Closed out.
Proof.
  eexists. split; [vm_compute; reflexivity|]. split; [vm_compute; reflexivity|].
  intros r out Hobs.
  destruct (decode_failure_fatal garbage_env (sample_e "comic.cbz" false)
              eq_refl eq_refl) as (_ & Hcbz & _).
  refine (proj1 (Hcbz 2 _ [zip_image "a.jpg"; zip_garbage "b.jpg"]
                   (zip_garbage "b.jpg") "image: unknown format"
                   eq_refl _ _ _ r Hobs) out).
  - vm_compute. reflexivity.
  - right. left. reflexivity.
  - right. exists "garbage". split; reflexivity.
Defined.

(** * Further properties of the loader *)

(** ** Choice of the loader *)

Lemma ToLower_Ext_suffix (path x : string) :
  all plain_byte x = true ->
  ToLower (Ext path) = String "." x
  <-> exists stem suf, path = (stem ++ String "." suf)%string /\ ToLower suf = x.
Proof.
  intros Hx. split.
  - intros H. destruct (Ext_suffix path) as [stem Hstem].
    destruct (Ext_plain_tail path) as [He | (b & He & Hb)].
    + rewrite He in H. discriminate.
    + exists stem, b. split; [now rewrite <- He|].
      rewrite He, ToLower_dot in H. now injection H.
  - intros (stem & suf & -> & <-).
    rewrite Ext_after_dot; [apply ToLower_dot|].
    now rewrite <- ToLower_plain.
Qed.

(** X1.  [load] chooses by the kind of the input and then by its extension
    in any mix of cases: a directory goes to [loadDir] whatever its name; a
    file that ends in a dot and [cbz] or [zip] goes to [loadCbz], [cbr] or
    [rar] to [loadCbr], [pdf] to [loadPdf]; a file without a dot in its last
    element is refused with an empty extension in the message; and an error
    of [os.Stat] is returned as it is. *)
Theorem load_dispatch (env : Env) (e : EPUBImageProcessor) :
  (forall err, os_Stat env (Input e) = inl err ->
               load env e = LoadError (errFrom err))
  /\ (os_Stat env (Input e) = inr true -> load env e = loadDir env e)
  /\ (os_Stat env (Input e) = inr false ->
      (forall stem suf,
          Input e = (stem ++ String "." suf)%string ->
          (ToLower suf = "cbz" \/ ToLower suf = "zip" ->
           load env e = loadCbz env e)
          /\ (ToLower suf = "cbr" \/ ToLower suf = "rar" ->
              load env e = loadCbr env e)
          /\ (ToLower suf = "pdf" -> load env e = loadPdf env e))
      /\ (all plain_byte (snd (Split (Input e))) = true ->
          load env e
          = LoadError
              (errorf "unknown file format (): support .cbz, .zip, .cbr, .rar, .pdf"))).
Proof.
  split; [|split].
  - intros err H. unfold load. now rewrite H.
  - intros H. unfold load. now rewrite H.
  - intros H. split.
    + intros stem suf Hin.
      assert (Hext : forall x, all plain_byte x = true -> ToLower suf = x ->
                ToLower (Ext (Input e)) = String "." x).
      { intros x Hx Hs. apply ToLower_Ext_suffix; [exact Hx|]. eauto. }
      unfold load. rewrite H. repeat split.
      * intros [Hs | Hs];
          [rewrite (Hext "cbz" eq_refl Hs) | rewrite (Hext "zip" eq_refl Hs)];
          reflexivity.
      * intros [Hs | Hs];
          [rewrite (Hext "cbr" eq_refl Hs) | rewrite (Hext "rar" eq_refl Hs)];
          reflexivity.
      * intros Hs. rewrite (Hext "pdf" eq_refl Hs). reflexivity.
    + intros Hplain. unfold load. rewrite H.
      destruct (split_exists (Input e)) as (dir & file & Hp & Hd & Hf).
      rewrite Hp, (Split_app dir file Hd Hf) in Hplain. simpl in Hplain.
      rewrite Hp, (Ext_Split dir file Hd Hf), (Ext_plain file Hplain).
      reflexivity.
Qed.

Lemma load_dispatch_witness :
  load (zip_env [zip_image "1.jpg"]) (sample_e "Comics/Vol.1.CbZ" true)
  = loadCbz (zip_env [zip_image "1.jpg"]) (sample_e "Comics/Vol.1.CbZ" true)
  /\ load (zip_env []) (sample_e "Comics.d/README" true)
     = LoadError
         (errorf "unknown file format (): support .cbz, .zip, .cbr, .rar, .pdf").
Proof.
  destruct (load_dispatch (zip_env [zip_image "1.jpg"])
              (sample_e "Comics/Vol.1.CbZ" true)) as (_ & _ & H1).
  destruct (load_dispatch (zip_env []) (sample_e "Comics.d/README" true))
    as (_ & _ & H2).
  split.
  - destruct (H1 eq_refl) as [Hs _].
    destruct (Hs "Comics/Vol.1" "CbZ" eq_refl) as (Hz & _ & _).
    apply Hz. now left.
  - destruct (H2 eq_refl) as [_ Hu]. apply Hu. reflexivity.
Defined.

(** ** The count of images *)

(** X2.  [loadDir], [loadCbz] and [loadCbr] never return a count of zero:
    without a supported image they return [errNoImagesFound], and with some
    they return the number of the images listed. *)
Theorem load_count_positive (env : Env) (e : EPUBImageProcessor) :
  (forall images,
      Dir.walk (filepath_WalkDir env (Clean (Input e))) [] = inr images ->
      (images = [] -> loadDir env e = LoadError errNoImagesFound)
      /\ (images <> [] ->
          exists c, loadDir env e = Loaded (length images) c
                    /\ 0 < length images))
  /\ (forall files,
         zip_OpenReader env (Input e) = inr files ->
         (Cbz.images files = [] -> loadCbz env e = LoadError errNoImagesFound)
         /\ (Cbz.images files <> [] ->
             exists c, loadCbz env e = Loaded (length (Cbz.images files)) c
                       /\ 0 < length (Cbz.images files)))
  /\ (forall files,
         rardecode_List env (Input e) = inr files ->
         (Cbr.images files = [] -> loadCbr env e = LoadError errNoImagesFound)
         /\ (Cbr.images files <> [] ->
             exists c, loadCbr env e = Loaded (length (Cbr.images files)) c
                       /\ 0 < length (Cbr.images files))).
Proof.
  split; [|split].
  - intros images H. split.
    + intros ->. unfold loadDir. now rewrite H.
    + intros Hne. unfold loadDir. rewrite H.
      destruct images as [|x l]; [contradiction|]. simpl.
      eexists. split; [reflexivity | lia].
  - intros files H. split.
    + intros Himg. unfold loadCbz. now rewrite H, Himg.
    + intros Hne. unfold loadCbz. rewrite H.
      destruct (Cbz.images files) as [|x l]; [contradiction|]. simpl.
      eexists. split; [reflexivity | lia].
  - intros files H. split.
    + intros Himg. unfold loadCbr. now rewrite H, Himg.
    + intros Hne. unfold loadCbr. rewrite H.
      rewrite length_map.
      destruct (Cbr.images files) as [|x l] eqn:Himg; [contradiction|].
      cbn [length Nat.eqb].
      destruct (Cbr.producer _ _ _ _ _) as [[jobs fin] k].
      eexists. split; [reflexivity | lia].
Qed.

Lemma load_count_positive_witness :
  exists c,
    loadCbz garbage_env (sample_e "comic.cbz" true) = Loaded 2 c.
Proof.
  destruct (load_count_positive garbage_env (sample_e "comic.cbz" true))
    as (_ & Hz & _).
  destruct (Hz [zip_image "a.jpg"; zip_garbage "b.jpg"] eq_refl) as [_ H].
  destruct H as (c & Hc & _); [discriminate|].
  exists c. exact Hc.
Defined.

(** ** Identifiers *)

Lemma Split_join (path : string) :
  (fst (Split path) ++ snd (Split path))%string = path.
Proof. unfold Split. simpl. apply take_drop_s. Qed.

Lemma Forall2_Emit_map {I J A : Type} (w : J -> step (tasks I))
    (f : tasks I -> A) (g : J -> A) (jobs : list J) (ts : list (tasks I)) :
  (forall j t, w j = Emit t -> f t = g j) ->
  Forall2 (fun j t => w j = Emit t) jobs ts ->
  map f ts = map g jobs.
Proof.
  intros Hw H. induction H as [|j t jobs ts Hj _ IH]; simpl; [reflexivity|].
  now rewrite (Hw j t Hj), IH.
Qed.

(** The tasks of a run that closes, for a pool that has a worker. *)
Lemma observes_closed {I J : Type} (workers : Z) (w : J -> step (tasks I))
    (jobs : list J) (fin : producer_end) (out : list (tasks I)) :
  (0 < workers)%Z ->
  observes (Pool J workers jobs fin w) (Closed out) ->
  exists ts, Forall2 (fun j t => w j = Emit t) jobs ts /\ Permutation ts out.
Proof.
  intros Hw Hobs. simpl in Hobs. apply Z.ltb_lt in Hw. rewrite Hw in Hobs.
  inversion Hobs; subst. eauto.
Qed.


Lemma Cbz_worker_Emit (env : Env) (e : EPUBImageProcessor)
    (j : Cbz.job) (t : tasks (image env)) :
  Cbz.worker env e j = Emit t ->
  Id t = Cbz.Id j
  /\ (Path t ++ Name t)%string = Clean (zip.Name (Cbz.F j)).
Proof.
  unfold Cbz.worker. destruct (decode env e _ _); try discriminate.
  pose proof (Split_join (Clean (zip.Name (Cbz.F j)))) as Hs.
  destruct (Split (Clean (zip.Name (Cbz.F j)))) as [p fn].
  intros [= <-]. now split.
Qed.



Lemma sample_env_permutes stat walk open zipFiles rarFiles rarReader pdf :
  sort_permutes (sample_env stat walk open zipFiles rarFiles rarReader pdf).
Proof. intros mode names. apply merge_sort_Permutation. Qed.


(** With names that are all different, the map gives back the position of
    each name. *)
Lemma indexNames_NoDup (names : list string) (i : nat) (k : string) :
  NoDup names -> names !! i = Some k -> indexNames names !! k = Some i.
Proof.
  intros Hnd Hi.
  destruct (indexNames names !! k) as [i'|] eqn:Hk.
  - apply indexNames_lookup in Hk as [Hi' _]. f_equal.
    exact (NoDup_lookup _ _ _ _ Hnd Hi' Hi).
  - exfalso. apply indexNames_lookup_None in Hk. apply Hk.
    apply list_elem_of_In, list_elem_of_lookup. eauto.
Qed.

Lemma map_positions {A : Type} (f : A -> nat) (l : list A) (s : nat) :
  (forall i a, l !! i = Some a -> f a = s + i) ->
  map f l = seq s (length l).
Proof.
  revert s. induction l as [|a l IH]; intros s H; simpl; [reflexivity|].
  rewrite (H 0 a eq_refl), Nat.add_0_r. f_equal.
  apply IH. intros i b Hi. rewrite (H (S i) b Hi). lia.
Qed.

Lemma map_get_NoDup (names : list string) :
  NoDup names ->
  map (map_get (indexNames names)) names = seq 0 (length names).
Proof.
  intros Hnd. apply map_positions. intros i k Hi.
  unfold map_get. now rewrite (indexNames_NoDup names i k Hnd Hi).
Qed.

(** X4.  When the images of a zip have different names, the identifiers of
    [loadCbz] are a numbering without hole or repetition: with a worker, a
    run that closes has sent each of [0 .. totalImages-1] once. *)
Theorem loadCbz_ids (env : Env) (e : EPUBImageProcessor)
    (files : list zip.File) (n : nat) (c : chan (image env))
    (out : list (tasks (image env))) :
  sort_permutes env ->
  (0 < WorkersRatio env (Workers e) 50)%Z ->
  zip_OpenReader env (Input e) = inr files ->
  NoDup (map zip.Name (Cbz.images files)) ->
  loadCbz env e = Loaded n c ->
  observes c (Closed out) ->
  Permutation (map Id out) (seq 0 n).
Proof.
  intros Hsort Hw Hopen Hnd Hload Hobs. unfold loadCbz in Hload.
  rewrite Hopen in Hload.
  destruct (length (Cbz.images files) =? 0); [discriminate|].
  injection Hload as <- <-.
  apply observes_closed in Hobs as (ts & Hts & Hperm); [|exact Hw].
  rewrite <- Hperm.
  rewrite (Forall2_Emit_map _ Id Cbz.Id _ _
             (fun j t H => proj1 (Cbz_worker_Emit _ _ j t H)) Hts).
  rewrite map_map. simpl.
  set (names := map zip.Name (Cbz.images files)) in *.
  set (sorted := sortpath_By env (SortPathMode e) names).
  assert (Hps : Permutation sorted names) by apply Hsort.
  assert (Hnd' : NoDup sorted).
  { now rewrite Hps. }
  rewrite <- (map_map zip.Name (map_get (indexNames sorted))).
  fold names. rewrite <- Hps, (map_get_NoDup sorted Hnd').
  rewrite (Permutation_length Hps). unfold names. now rewrite length_map.
Qed.

Lemma loadCbz_ids_witness :
  exists c out,
    loadCbz (zip_env [zip_image "b.png"; zip_image "a.jpg"])
            (sample_e "comic.cbz" false) = Loaded 2 c
    /\ observes c (Closed out)
    /\ map Id out = [1; 0]
    /\ Permutation (map Id out) [0; 1].
Proof.
  eexists. eexists. split; [vm_compute; reflexivity|].
  assert (Hobs : observes
            (Pool Cbz.job 2
               [Cbz.Build_job 1 (zip_image "b.png");
                Cbz.Build_job 0 (zip_image "a.jpg")] Closes
               (Cbz.worker (zip_env [zip_image "b.png"; zip_image "a.jpg"])
                           (sample_e "comic.cbz" false)))
            (Closed [Build_tasks string 1 (Some "IMG") "" "b.png";
                     Build_tasks string 0 (Some "IMG") "" "a.jpg"])).
  { simpl. eapply obs_closed; [reflexivity | | reflexivity].
    repeat constructor. }
  split; [exact Hobs | split; [reflexivity|]].
  refine (loadCbz_ids (zip_env [zip_image "b.png"; zip_image "a.jpg"])
            (sample_e "comic.cbz" false)
            [zip_image "b.png"; zip_image "a.jpg"] 2 _ _
            (sample_env_permutes _ _ _ _ _ _ _) eq_refl eq_refl _ _ Hobs).
  - apply (bool_decide_unpack _). vm_compute. exact I.
  - vm_compute. reflexivity.
Defined.

Lemma Split_snd_not_sep (path : string) : all not_sep (snd (Split path)) = true.
Proof.
  destruct (split_exists path) as (dir & file & -> & Hd & Hf).
  now rewrite (Split_app dir file Hd Hf).
Qed.

Lemma Forall2_In_r {A B : Type} (R : A -> B -> Prop) (l : list A)
    (l' : list B) (b : B) :
  Forall2 R l l' -> In b l' -> exists a, In a l /\ R a b.
Proof.
  induction 1 as [|x y l l' Hxy _ IH]; [contradiction|].
  intros [<- | Hin].
  - exists x. split; [now left | exact Hxy].
  - destruct (IH Hin) as (a & Ha & HR). exists a. split; [now right | exact HR].
Qed.

Lemma map_get_position (names : list string) (k : string) :
  In k names -> names !! map_get (indexNames names) k = Some k.
Proof.
  intros Hin. unfold map_get.
  destruct (indexNames names !! k) as [i|] eqn:Hk.
  - now apply indexNames_lookup in Hk as [Hi _].
  - now apply indexNames_lookup_None in Hk.
Qed.

(** X5.  A task of [loadCbz] carries a position of the name of its member
    in the sorted list of names, the directory and the last element of the
    cleaned name as [Path] and [Name], and no separator in [Name]. *)
Theorem loadCbz_task (env : Env) (e : EPUBImageProcessor)
    (files : list zip.File) (n : nat) (c : chan (image env))
    (out : list (tasks (image env))) (t : tasks (image env)) :
  sort_permutes env ->
  (0 < WorkersRatio env (Workers e) 50)%Z ->
  zip_OpenReader env (Input e) = inr files ->
  loadCbz env e = Loaded n c ->
  observes c (Closed out) ->
  In t out ->
  exists f,
    In f (Cbz.images files)
    /\ sortpath_By env (SortPathMode e) (map zip.Name (Cbz.images files))
       !! Id t = Some (zip.Name f)
    /\ (Path t ++ Name t)%string = Clean (zip.Name f)
    /\ all not_sep (Name t) = true.
Proof.
  intros Hsort Hw Hopen Hload Hobs Hin. unfold loadCbz in Hload.
  rewrite Hopen in Hload.
  destruct (length (Cbz.images files) =? 0); [discriminate|].
  injection Hload as <- <-.
  apply observes_closed in Hobs as (ts & Hts & Hperm); [|exact Hw].
  apply (Permutation_in _ (Permutation_sym Hperm)) in Hin.
  destruct (Forall2_In_r _ _ _ _ Hts Hin) as (j & Hj & Hjt).
  apply in_map_iff in Hj as (f & <- & Hf).
  exists f. split; [exact Hf|].
  destruct (Cbz_worker_Emit _ _ _ _ Hjt) as [HId Hpn]. simpl in HId, Hpn.
  split; [|split; [exact Hpn|]].
  - rewrite HId. apply map_get_position.
    apply (Permutation_in _ (Permutation_sym (Hsort _ _))).
    now apply in_map.
  - unfold Cbz.worker in Hjt. destruct (decode env e _ _); try discriminate.
    pose proof (Split_snd_not_sep (Clean (zip.Name f))) as Hs.
    cbn [Cbz.F Cbz.Id] in Hjt.
    destruct (Split (Clean (zip.Name f))) as [p fn] eqn:Hsp.
    injection Hjt as Ht. rewrite <- Ht. exact Hs.
Qed.

Lemma loadCbz_task_witness :
  exists f,
    In f [zip_image "vol1/b.png"; zip_image "vol1/a.jpg"]
    /\ sample_By 1 ["vol1/b.png"; "vol1/a.jpg"] !! 1 = Some (zip.Name f)
    /\ ("vol1/" ++ "b.png")%string = Clean (zip.Name f).
Proof.
  assert (Hobs : observes
            (Pool Cbz.job 2
               [Cbz.Build_job 1 (zip_image "vol1/b.png");
                Cbz.Build_job 0 (zip_image "vol1/a.jpg")] Closes
               (Cbz.worker
                  (zip_env [zip_image "vol1/b.png"; zip_image "vol1/a.jpg"])
                  (sample_e "comic.cbz" false)))
            (Closed [Build_tasks string 1 (Some "IMG") "vol1/" "b.png";
                     Build_tasks string 0 (Some "IMG") "vol1/" "a.jpg"])).
  { simpl. eapply obs_closed; [reflexivity | | reflexivity].
    repeat constructor. }
  destruct (loadCbz_task
              (zip_env [zip_image "vol1/b.png"; zip_image "vol1/a.jpg"])
              (sample_e "comic.cbz" false)
              [zip_image "vol1/b.png"; zip_image "vol1/a.jpg"] 2 _ _
              (Build_tasks string 1 (Some "IMG") "vol1/" "b.png")
              (sample_env_permutes _ _ _ _ _ _ _) eq_refl eq_refl
              ltac:(vm_compute; reflexivity) Hobs ltac:(now left))
    as (f & Hf & Hpos & Hpath & _).
  exists f. repeat split; assumption.
Defined.

(** ** The number of tasks *)

Lemma Forall2_length_eq {A B : Type} (R : A -> B -> Prop) (l : list A)
    (l' : list B) :
  Forall2 R l l' -> length l = length l'.
Proof. induction 1; simpl; auto. Qed.

(** X6.  A run of [loadDir], [loadCbz] or [loadPdf] that closes its channel
    has sent as many tasks as the count returned with the channel (for the
    pools, with at least one worker). *)
Theorem load_task_count (env : Env) (e : EPUBImageProcessor) (n : nat)
    (c : chan (image env)) (out : list (tasks (image env))) :
  (0 < WorkersRatio env (Workers e) 50)%Z ->
  observes c (Closed out) ->
  (sort_permutes env -> loadDir env e = Loaded n c -> length out = n)
  /\ (loadCbz env e = Loaded n c -> length out = n)
  /\ (loadPdf env e = Loaded n c -> length out = n).
Proof.
  intros Hw Hobs. split; [|split].
  - intros Hsort Hload. unfold loadDir in Hload.
    destruct (Dir.walk _ []) as [err | images]; [discriminate|].
    destruct (length images =? 0); [discriminate|].
    injection Hload as <- <-.
    apply observes_closed in Hobs as (ts & Hts & Hperm); [|exact Hw].
    rewrite <- (Permutation_length Hperm), <- (Forall2_length_eq _ _ _ Hts).
    unfold Dir_jobs. rewrite length_imap.
    apply Permutation_length, Hsort.
  - intros Hload. unfold loadCbz in Hload.
    destruct (zip_OpenReader env (Input e)) as [err | files]; [discriminate|].
    destruct (length (Cbz.images files) =? 0); [discriminate|].
    injection Hload as <- <-.
    apply observes_closed in Hobs as (ts & Hts & Hperm); [|exact Hw].
    rewrite <- (Permutation_length Hperm), <- (Forall2_length_eq _ _ _ Hts).
    apply length_map.
  - intros Hload. unfold loadPdf in Hload.
    destruct (pdfread_Load env (Input e)) as [[pages Extract]|]; [|discriminate].
    injection Hload as <- <-. simpl in Hobs. symmetry in Hobs.
    apply Pdf_loop_closed in Hobs.
    apply (f_equal (@length _)) in Hobs.
    rewrite length_app, !length_map, length_seq in Hobs. exact Hobs.
Qed.

Lemma load_task_count_witness :
  exists out,
    observes (Pool Cbz.job 2
                [Cbz.Build_job 1 (zip_image "a.jpg");
                 Cbz.Build_job 1 (zip_image "a.jpg")]
                Closes (Cbz.worker twice_env (sample_e "comic.cbz" false)))
             (Closed out)
    /\ length out = 2.
Proof.
  assert (Hobs : observes
            (Pool Cbz.job 2
               [Cbz.Build_job 1 (zip_image "a.jpg");
                Cbz.Build_job 1 (zip_image "a.jpg")]
               Closes (Cbz.worker twice_env (sample_e "comic.cbz" false)))
            (Closed [Build_tasks string 1 (Some "IMG") "" "a.jpg";
                     Build_tasks string 1 (Some "IMG") "" "a.jpg"])).
  { simpl. eapply obs_closed; [reflexivity | | reflexivity].
    repeat constructor. }
  eexists. split; [exact Hobs|].
  refine (proj1 (proj2 (load_task_count twice_env (sample_e "comic.cbz" false)
                          2 _ _ eq_refl Hobs)) _).
  vm_compute. reflexivity.
Defined.

(** ** The sequential pass *)

(** X7.  The sequential pass reads only the entries whose name is in the
    index: another entry, readable or not, leaves the jobs and the end of
    the pass as they are without it. *)
Theorem Cbr_stream_skips (indexedNames : gmap string nat)
    (pre post : list (rardecode.FileHeader * (string + string)))
    (f : rardecode.FileHeader) (data : string + string)
    (ending : rardecode.stream_end) :
  indexedNames !! rardecode.HName f = None ->
  Cbr.stream indexedNames (pre ++ (f, data) :: post) ending
  = Cbr.stream indexedNames (pre ++ post) ending.
Proof.
  intros Hf. induction pre as [|[g d] pre IH]; simpl.
  - now rewrite Hf.
  - now rewrite IH.
Qed.

Lemma Cbr_stream_skips_witness :
  Cbr.stream (indexNames ["a.jpg"])
    ([] ++ (rardecode.Build_FileHeader "notes.txt", inl "bad block")
        :: [(rardecode.Build_FileHeader "a.jpg", inr "IMG")]) rardecode.EOF
  = ([Cbr.Build_job 0 "a.jpg" (Cbr.FromMemory "IMG")], Closes).
Proof.
  rewrite Cbr_stream_skips; [|vm_compute; reflexivity].
  vm_compute. reflexivity.
Defined.

(** X8.  When the sequential reader of a solid rar cannot be opened in a
    real run, no job is queued and every run with a worker exits with
    status 1 on the message that names the archive. *)
Theorem loadCbr_reader_failure (env : Env) (e : EPUBImageProcessor)
    (files : list rardecode.File) (rerr : string) (n : nat)
    (c : chan (image env)) (r : run (image env)) :
  Dry e = false ->
  (0 < WorkersRatio env (Workers e) 50)%Z ->
  rardecode_List env (Input e) = inr files ->
  existsb rardecode.Solid (Cbr.images files) = true ->
  rardecode_OpenReader env (Input e) = inl rerr ->
  loadCbr env e = Loaded n c ->
  observes c r ->
  r = Exited 1 (error_processing (Input e) rerr).
Proof.
  intros Hdry Hw Hlist Hsolid Hopen Hload Hobs. unfold loadCbr in Hload.
  rewrite Hlist, Hsolid, length_map, (existsb_length _ _ Hsolid) in Hload.
  unfold Cbr.producer in Hload. rewrite Hdry, Hopen in Hload. simpl in Hload.
  injection Hload as <- <-. simpl in Hobs.
  apply Z.ltb_lt in Hw. rewrite Hw in Hobs.
  inversion Hobs as [ts out Hfin | j msg Hin | j Hin | msg Hfin | Hfin];
    subst; try discriminate; try contradiction.
  now injection Hfin as <-.
Qed.

Lemma loadCbr_reader_failure_witness :
  exists r,
    observes (Pool Cbr.job 2 []
                (ProducerExit (error_processing "comic.cbr" "truncated"))
                (Cbr.worker
                   (sample_env is_file [] no_file (inl "not a zip")
                      (inr [rar_image "a.jpg" true]) (inl "truncated") None)
                   (sample_e "comic.cbr" false))) r
    /\ r = Exited 1 (error_processing "comic.cbr" "truncated").
Proof.
  assert (Hobs : observes
            (Pool Cbr.job 2 []
               (ProducerExit (error_processing "comic.cbr" "truncated"))
               (Cbr.worker
                  (sample_env is_file [] no_file (inl "not a zip")
                     (inr [rar_image "a.jpg" true]) (inl "truncated") None)
                  (sample_e "comic.cbr" false)))
            (Exited 1 (error_processing "comic.cbr" "truncated"))).
  { simpl. now apply obs_producer_exit. }
  eexists. split; [exact Hobs|].
  refine (loadCbr_reader_failure
            (sample_env is_file [] no_file (inl "not a zip")
               (inr [rar_image "a.jpg" true]) (inl "truncated") None)
            (sample_e "comic.cbr" false) [rar_image "a.jpg" true] "truncated"
            1 _ _ eq_refl eq_refl eq_refl eq_refl eq_refl _ Hobs).
  vm_compute. reflexivity.
Defined.

(** ** The path of a task of loadDir *)

Lemma dir_part_app_sep (input dir : string) :
  dir_part dir -> dir_part ((input ++ "/") ++ dir).
Proof.
  intros [-> | (d & ->)]; right.
  - exists input. now rewrite app_s_nil_r.
  - exists (input ++ "/" ++ d)%string. now rewrite !app_s_assoc.
Qed.

(** X9.  A worker of [loadDir] that has its image cuts the input and one
    separator off the directory of the path: a path made of the input, a
    separator, a directory part and a file name gives that directory part
    as [Path] and the file name as [Name].  A path whose directory is not
    the input and is not longer than it makes the slice expression panic,
    in a dry run too: such are the paths that [filepath.WalkDir] yields for
    the input [.]. *)
Theorem Dir_worker_path (env : Env) (e : EPUBImageProcessor) (input : string)
    (j : Dir.job) (img : option (image env)) :
  decode env e (Dir.Path j) (os_Open env (Dir.Path j)) = Emit img ->
  (forall dir file,
      dir_part dir -> all not_sep file = true ->
      Dir.Path j = ((input ++ "/") ++ dir ++ file)%string ->
      Dir.worker env e input j
      = Emit (Build_tasks (image env) (Dir.Id j) img dir file))
  /\ (forall p fn,
         Split (Dir.Path j) = (p, fn) ->
         p <> input -> String.length p <= String.length input ->
         Dir.worker env e input j = Panic).
Proof.
  intros Hdec. split.
  - intros dir file Hd Hf Hpath. unfold Dir.worker. rewrite Hdec, Hpath.
    rewrite <- app_s_assoc.
    rewrite (Split_app _ file (dir_part_app_sep input dir Hd) Hf).
    destruct (String.eqb_spec ((input ++ "/") ++ dir) input) as [E | _].
    { apply (f_equal String.length) in E. rewrite !length_app_s in E.
      simpl in E. lia. }
    unfold slice_from.
    replace (String.length input + 1) with (String.length (input ++ "/"))
      by (rewrite length_app_s; reflexivity).
    rewrite drop_s_app.
    destruct (Nat.leb_spec (String.length (input ++ "/"))
                (String.length ((input ++ "/") ++ dir))) as [_ | H];
      [reflexivity|].
    rewrite (length_app_s (input ++ "/") dir) in H. lia.
  - intros p fn Hsplit Hne Hlen. unfold Dir.worker. rewrite Hdec, Hsplit.
    destruct (String.eqb_spec p input) as [E | _]; [contradiction|].
    unfold slice_from.
    destruct (Nat.leb_spec (String.length input + 1) (String.length p));
      [lia | reflexivity].
Qed.

Lemma Dir_worker_path_witness :
  Dir.worker comics_env (sample_e "comics" true) "comics"
    (Dir.Build_job 3 "comics/vol1/a.jpg")
  = Emit (Build_tasks string 3 None "vol1/" "a.jpg")
  /\ Dir.worker comics_env (sample_e "." true) "." (Dir.Build_job 0 "a.jpg")
     = Panic.
Proof.
  split.
  - apply (proj1 (Dir_worker_path comics_env (sample_e "comics" true) "comics"
                    (Dir.Build_job 3 "comics/vol1/a.jpg") None eq_refl)
             "vol1/" "a.jpg"); [right; now exists "vol1" | reflexivity..].
  - apply (proj2 (Dir_worker_path comics_env (sample_e "." true) "."
                    (Dir.Build_job 0 "a.jpg") None eq_refl) "" "a.jpg");
      [reflexivity | discriminate | simpl; lia].
Defined.

(** ** Dry runs after the listing *)

Lemma pool_all_emit {I J : Type} (workers : Z) (w : J -> step (tasks I))
    (jobs : list J) (r : run I) :
  (0 < workers)%Z ->
  (forall j, In j jobs -> exists t, w j = Emit t) ->
  observes (Pool J workers jobs Closes w) r ->
  exists out, r = Closed out /\ length out = length jobs.
Proof.
  intros Hw Hall Hobs. simpl in Hobs. apply Z.ltb_lt in Hw. rewrite Hw in Hobs.
  inversion Hobs as [ts out _ Hts Hperm | j msg Hin Hj | j Hin Hj
                     | msg Hfin | Hfin]; subst; try discriminate.
  - exists out. split; [reflexivity|].
    now rewrite <- (Permutation_length Hperm), <- (Forall2_length_eq _ _ _ Hts).
  - destruct (Hall j Hin) as [t Ht]. congruence.
  - destruct (Hall j Hin) as [t Ht]. congruence.
Qed.

(** X10.  Once the listing of a zip or of a rar has succeeded, a dry run
    with a worker cannot fail: every run closes the channel (after
    [totalImages] tasks for a zip), and none exits or panics. *)
Theorem dry_archive_never_fails (env : Env) (e : EPUBImageProcessor) (n : nat)
    (c : chan (image env)) (r : run (image env)) :
  Dry e = true ->
  (0 < WorkersRatio env (Workers e) 50)%Z ->
  observes c r ->
  (loadCbz env e = Loaded n c -> exists out, r = Closed out /\ length out = n)
  /\ (loadCbr env e = Loaded n c -> exists out, r = Closed out).
Proof.
  intros Hdry Hw Hobs. split.
  - intros Hload. unfold loadCbz in Hload.
    destruct (zip_OpenReader env (Input e)) as [err | files]; [discriminate|].
    destruct (length (Cbz.images files) =? 0); [discriminate|].
    injection Hload as <- <-.
    assert (Hall : forall j : Cbz.job, exists t, Cbz.worker env e j = Emit t).
    { intros j. unfold Cbz.worker, decode. rewrite Hdry.
      destruct (Split _). eauto. }
    destruct (pool_all_emit _ _ _ r Hw (fun j _ => Hall j) Hobs)
      as (out & -> & Hlen).
    exists out. split; [reflexivity|]. now rewrite Hlen, length_map.
  - intros Hload. unfold loadCbr in Hload.
    destruct (rardecode_List env (Input e)) as [err | files]; [discriminate|].
    destruct (length _ =? 0); [discriminate|].
    unfold Cbr.producer in Hload. rewrite Hdry, andb_false_r in Hload.
    injection Hload as <- <-.
    assert (Hall : forall j : Cbr.job, exists t, Cbr.worker env e j = Emit t).
    { intros j. unfold Cbr.worker, decode. rewrite Hdry.
      destruct (Split _). eauto. }
    destruct (pool_all_emit _ _ _ r Hw (fun j _ => Hall j) Hobs)
      as (out & -> & _).
    eauto.
Qed.

Lemma dry_archive_never_fails_witness :
  exists out,
    drain (Pool Cbz.job 2
             [Cbz.Build_job 0 (zip_image "a.jpg");
              Cbz.Build_job 1 (zip_garbage "b.jpg")]
             Closes (Cbz.worker garbage_env (sample_e "comic.cbz" true)))
    = Closed out /\ length out = 2.
Proof.
  refine (proj1 (dry_archive_never_fails garbage_env
                   (sample_e "comic.cbz" true) 2 _ _ eq_refl eq_refl
                   (drain_observed _)) _).
  vm_compute. reflexivity.
Defined.

(** ** The walk of a directory *)

Lemma Dir_walk_entries (items : list walk_item) (images : list string) :
  forallb is_entry items = true ->
  Dir.walk items images = inr (images ++ walk_paths items)%list.
Proof.
  revert images. induction items as [|[p d | p err] items IH]; intros images H.
  - simpl. now rewrite app_nil_r.
  - simpl in H. unfold walk_paths. simpl. rewrite (IH _ H).
    destruct (negb d && isSupportedImage p); [|reflexivity].
    now rewrite <- app_assoc.
  - discriminate.
Qed.

Lemma Dir_walk_error (pre post : list walk_item) (p err : string)
    (images : list string) :
  forallb is_entry pre = true ->
  Dir.walk (pre ++ WalkError p err :: post) images = inl err.
Proof.
  revert images. induction pre as [|[q d | q e'] pre IH]; intros images H;
    simpl; [reflexivity | now apply IH | discriminate].
Qed.

(** X11.  A walk without error lists, in the order of the walk, the paths
    of the entries that are not directories and have a supported extension,
    a directory named like an image included in what is left out.  The
    first error of a walk ends [loadDir] with that error, whatever images
    were seen before it. *)
Theorem loadDir_walk (env : Env) (e : EPUBImageProcessor) :
  let items := filepath_WalkDir env (Clean (Input e)) in
  (forallb is_entry items = true ->
   Dir.walk items [] = inr (walk_paths items)
   /\ forall p, In p (walk_paths items)
                <-> In (WalkEntry p false) items /\ isSupportedImage p = true)
  /\ (forall pre p err post,
         items = (pre ++ WalkError p err :: post)%list ->
         forallb is_entry pre = true ->
         loadDir env e = LoadError (errFrom err)).
Proof.
  intros items. split.
  - intros H. split; [now rewrite Dir_walk_entries|].
    intros p. unfold walk_paths.
    rewrite <- !list_elem_of_In, list_elem_of_omap. split.
    + intros ([q d | q err] & Hin & Hq); [|discriminate].
      destruct d; simpl in Hq; [discriminate|].
      destruct (isSupportedImage q) eqn:Hs; [|discriminate].
      injection Hq as ->. now split.
    + intros [Hin Hs]. exists (WalkEntry p false). simpl. now rewrite Hs.
  - intros pre p err post Hitems Hpre. unfold loadDir. fold items.
    now rewrite Hitems, Dir_walk_error.
Qed.

Lemma loadDir_walk_witness :
  Dir.walk (filepath_WalkDir comics_env (Clean "comics/")) []
  = inr ["comics/b.png"; "comics/a.jpg"]
  /\ loadDir (dir_env [WalkEntry "comics" true; WalkEntry "comics/a.jpg" false;
                       WalkError "comics/vol2" "permission denied"] "IMG")
             (sample_e "comics" false)
     = LoadError (errFrom "permission denied").
Proof.
  split.
  - apply (proj1 (loadDir_walk comics_env (sample_e "comics/" false))).
    reflexivity.
  - apply (proj2 (loadDir_walk
                    (dir_env [WalkEntry "comics" true;
                              WalkEntry "comics/a.jpg" false;
                              WalkError "comics/vol2" "permission denied"] "IMG")
                    (sample_e "comics" false))
             [WalkEntry "comics" true; WalkEntry "comics/a.jpg" false]
             "comics/vol2" "permission denied" []); reflexivity.
Defined.

(** * Further properties of main *)

Section MainMore.
Import Main.
Context (ALGO_GRAY : string -> bool).

(** X12.  [main] never panics on the profile table, and when it does not
    start the conversion it exits with status 1. *)
Theorem main_exits_1 (Stat : string -> string + bool) (opt : Option) :
  main Stat ALGO_GRAY opt <> Panics
  /\ forall code msg, main Stat ALGO_GRAY opt = Exit code msg -> code = 1%Z.
Proof.
  unfold main.
  destruct (String.eqb (Input opt) "");
    [split; [discriminate | now intros code msg [= <- _]]|].
  destruct (Stat (Input opt)) as [err | isDir];
    [split; [discriminate | now intros code msg [= <- _]]|].
  destruct (settle_Output _ _ _) as [msg0 | out];
    [split; [discriminate | now intros code msg [= <- _]]|].
  destruct (ProfilesIdx !! Profile_ opt) as [idx|] eqn:Hidx;
    [|split; [discriminate | now intros code msg [= <- _]]].
  destruct (ProfilesIdx_lookup _ _ Hidx) as (profile & -> & _).
  destruct (_ && _)%Z;
    [split; [discriminate | now intros code msg [= <- _]]|].
  destruct (negb _); split; try discriminate; now intros code msg [= <- _].
Qed.

(** X13.  An output that ends in [.epub] is taken as it is: [main] does not
    ask the file system about it, so that the outcome is the same whether
    the path exists or not. *)
Theorem main_epub_output (Stat1 Stat2 : string -> string + bool)
    (opt : Option) (stem : string) :
  Output opt = (stem ++ ".epub")%string ->
  Stat1 (Input opt) = Stat2 (Input opt) ->
  main Stat1 ALGO_GRAY opt = main Stat2 ALGO_GRAY opt
  /\ forall o, main Stat1 ALGO_GRAY opt = Write o -> EOutput o = Output opt.
Proof.
  intros Hout Hstat.
  assert (Hsettle : forall Stat d, settle_Output Stat d (Output opt)
                                   = inr (Output opt)).
  { intros Stat d. unfold settle_Output.
    destruct (String.eqb_spec (Output opt) "") as [E | _].
    { rewrite Hout in E. apply (f_equal String.length) in E.
      rewrite length_app_s in E. simpl in E. lia. }
    rewrite Hout, Ext_epub. reflexivity. }
  unfold main. rewrite <- Hstat.
  destruct (String.eqb (Input opt) ""); [split; [reflexivity | discriminate]|].
  destruct (Stat1 (Input opt)) as [err | isDir];
    [split; [reflexivity | discriminate]|].
  rewrite !Hsettle. split; [reflexivity|].
  destruct (ProfilesIdx !! Profile_ opt) as [idx|]; [|discriminate].
  destruct (Profiles !! idx); [|discriminate].
  destruct (_ && _)%Z; [discriminate|].
  destruct (negb _); [discriminate|]. now intros o [= <-].
Qed.

(** X14.  An output that does not end in [.epub] must be an existing
    directory: for an input that exists, [main] exits with status 1 on the
    error of [os.Stat] when the output does not exist, and on its own
    message when the output is a file. *)
Theorem main_output_rejected (Stat : string -> string + bool) (opt : Option)
    (isDir : bool) :
  Input opt <> "" ->
  Stat (Input opt) = inr isDir ->
  Output opt <> "" ->
  (forall stem, Output opt <> (stem ++ ".epub")%string) ->
  (forall err, Stat (Output opt) = inl err ->
               main Stat ALGO_GRAY opt = Exit 1 (err ++ nl))
  /\ (Stat (Output opt) = inr false ->
      main Stat ALGO_GRAY opt
      = Exit 1 ("output must be an existing dir or end with .epub" ++ nl)).
Proof.
  intros Hin Hstat Hne Hext.
  assert (Hsettle : settle_Output Stat (defaultOutput isDir (Input opt))
                      (Output opt)
                    = match Stat (Output opt) with
                      | inl err => inl (err ++ nl)%string
                      | inr false =>
                          inl ("output must be an existing dir or end with .epub"
                               ++ nl)%string
                      | inr true =>
                          inr (Join [Output opt;
                                     Base (defaultOutput isDir (Input opt))])
                      end).
  { unfold settle_Output.
    destruct (String.eqb_spec (Output opt) "") as [E | _]; [contradiction|].
    destruct (String.eqb_spec (Ext (Output opt)) ".epub") as [E | _];
      [|reflexivity].
    apply Ext_epub_iff in E as [stem E]. now elim (Hext stem). }
  unfold main.
  destruct (String.eqb_spec (Input opt) "") as [E | _]; [contradiction|].
  rewrite Hstat, Hsettle. split.
  - intros err ->. reflexivity.
  - intros ->. reflexivity.
Qed.
End MainMore.

Lemma main_epub_output_witness :
  Main.main sample_Stat sample_ALGO_GRAY
    (sample_opt "comics/a.cbz" "new/dir/book.epub" 0)
  = Main.main (fun p => if String.eqb p "comics/a.cbz" then inr false
                        else inl "no such file or directory")
      sample_ALGO_GRAY (sample_opt "comics/a.cbz" "new/dir/book.epub" 0).
Proof.
  apply (main_epub_output sample_ALGO_GRAY sample_Stat
           (fun p => if String.eqb p "comics/a.cbz" then inr false
                     else inl "no such file or directory")
           (sample_opt "comics/a.cbz" "new/dir/book.epub" 0) "new/dir/book");
    reflexivity.
Defined.

Lemma main_output_rejected_witness :
  Main.main sample_Stat sample_ALGO_GRAY
    (sample_opt "comics/a.cbz" "comics/b.cbz" 0)
  = Main.Exit 1 ("output must be an existing dir or end with .epub" ++ nl).
Proof.
  apply (main_output_rejected sample_ALGO_GRAY sample_Stat
           (sample_opt "comics/a.cbz" "comics/b.cbz" 0) false);
    try reflexivity; try discriminate.
  intros stem E. apply (f_equal Ext) in E. rewrite Ext_epub in E. discriminate.
Defined.

Lemma all_take_s (P : ascii -> bool) (n : nat) (s : string) :
  all P s = true -> all P (take_s n s) = true.
Proof.
  revert s. induction n as [|n IH]; intros [|c s]; simpl; auto.
  intros H. apply andb_true_iff in H as [Hc Hs]. now rewrite Hc, IH.
Qed.

Lemma Split_fst_dir_part (path : string) : dir_part (fst (Split path)).
Proof.
  destruct (split_exists path) as (dir & file & -> & Hd & Hf).
  now rewrite (Split_app dir file Hd Hf).
Qed.

Lemma default_name_not_sep (isDir : bool) (input : string) :
  all not_sep (Main.default_name isDir input) = true.
Proof.
  unfold Main.default_name. rewrite all_app.
  pose proof (Split_snd_not_sep (Clean input)) as Hf.
  destruct isDir; [now rewrite Hf|].
  now rewrite all_take_s.
Qed.

(** X15.  A given [-title] is kept.  Without one the title is the default
    name without [.epub] when that is not empty: the last element of the
    cleaned input, less its extension for a file.  When it is empty (the
    root, or a file whose name is only an extension) the title is
    [filepath.Base] of the directory part of the cleaned input. *)
Theorem main_default_title (Stat : string -> string + bool)
    (ALGO_GRAY : string -> bool) (opt : Main.Option) (isDir : bool)
    (o : Main.EpubOptions) :
  Stat (Main.Input opt) = inr isDir ->
  Main.main Stat ALGO_GRAY opt = Main.Write o ->
  (Main.Title opt <> "" -> Main.ETitle o = Main.Title opt)
  /\ (forall stem,
         Main.Title opt = "" ->
         Main.default_name isDir (Main.Input opt) = (stem ++ ".epub")%string ->
         Main.ETitle o
         = if String.eqb stem "" then Base (fst (Split (Clean (Main.Input opt))))
           else stem).
Proof.
  intros Hstat Hmain. unfold Main.main in Hmain.
  destruct (String.eqb (Main.Input opt) ""); [discriminate|].
  rewrite Hstat in Hmain.
  destruct (Main.settle_Output _ _ _) as [msg0 | out]; [discriminate|].
  destruct (Main.ProfilesIdx !! Main.Profile_ opt) as [idx|]; [|discriminate].
  destruct (Main.Profiles !! idx); [|discriminate].
  destruct (_ && _)%Z; [discriminate|].
  destruct (negb _); [discriminate|].
  injection Hmain as <-. cbn [Main.ETitle]. split.
  - intros Hne. destruct (String.eqb_spec (Main.Title opt) "");
      [contradiction | reflexivity].
  - intros stem -> Hname. cbn [String.eqb].
    destruct (defaultOutput_name isDir (Main.Input opt))
      as (Hd & _ & Hext).
    rewrite Hext, Hd, Hname, <- app_s_assoc.
    set (dirp := fst (Split (Clean (Main.Input opt)))).
    replace (String.length ((dirp ++ stem) ++ ".epub") - String.length ".epub")
      with (String.length (dirp ++ stem)) by (rewrite !length_app_s; simpl; lia).
    rewrite take_s_app.
    destruct (string_snoc stem) as [-> | (a & c & ->)].
    + now rewrite app_s_nil_r.
    + replace (String.eqb (a ++ String c "") "") with false
        by (symmetry; apply String.eqb_neq; destruct a; discriminate).
      apply Base_app; [apply Split_fst_dir_part|].
      pose proof (default_name_not_sep isDir (Main.Input opt)) as Hns.
      rewrite Hname, all_app in Hns. now apply andb_true_iff in Hns as [Hns _].
Qed.

Lemma main_default_title_witness :
  (exists o,
      Main.main sample_Stat sample_ALGO_GRAY
        (sample_opt "comics/My Comic.v2.cbz" "" 0) = Main.Write o
      /\ Main.ETitle o = "My Comic.v2")
  /\ (exists o,
         Main.main sample_Stat sample_ALGO_GRAY
           (sample_opt "comics/.cbz" "" 0) = Main.Write o
         /\ Main.EOutput o = "comics/.epub"
         /\ Main.ETitle o = "comics")
  /\ (exists o,
         Main.main (fun _ => inr true) sample_ALGO_GRAY
           (sample_opt "/" "" 0) = Main.Write o
         /\ Main.EOutput o = "/.epub"
         /\ Main.ETitle o = "/").
Proof.
  split; [|split].
  - eexists. split; [vm_compute; reflexivity|].
    apply (proj2 (main_default_title sample_Stat sample_ALGO_GRAY
                    (sample_opt "comics/My Comic.v2.cbz" "" 0) false _
                    eq_refl ltac:(vm_compute; reflexivity)) "My Comic.v2");
      [reflexivity | vm_compute; reflexivity].
  - eexists. split; [vm_compute; reflexivity|].
    split; [vm_compute; reflexivity|].
    apply (proj2 (main_default_title sample_Stat sample_ALGO_GRAY
                    (sample_opt "comics/.cbz" "" 0) false _
                    eq_refl ltac:(vm_compute; reflexivity)) "");
      [reflexivity | vm_compute; reflexivity].
  - eexists. split; [vm_compute; reflexivity|].
    split; [vm_compute; reflexivity|].
    apply (proj2 (main_default_title (fun _ => inr true) sample_ALGO_GRAY
                    (sample_opt "/" "" 0) true _
                    eq_refl ltac:(vm_compute; reflexivity)) "");
      [reflexivity | vm_compute; reflexivity].
Defined.

(** ** The table of profiles *)

Lemma fill_map_key {A : Type} (key : A -> string) (l : list A)
    (m0 : gmap string nat) (j0 : nat) :
  foldl (fun m p => <[key (snd p) := fst p]> m) m0
        (imap (fun i x => (j0 + i, x)) l)
  = foldl (fun m (p : nat * string) => <[snd p := fst p]> m) m0
          (imap (fun i x => (j0 + i, x)) (map key l)).
Proof.
  revert m0 j0. induction l as [|x l IH]; intros m0 j0; simpl; [reflexivity|].
  rewrite (imap_ext _ (fun i y => (S j0 + i, y)) l)
    by (intros; simpl; f_equal; lia).
  rewrite (imap_ext _ (fun i (y : string) => (S j0 + i, y)) (map key l))
    by (intros; simpl; f_equal; lia).
  apply IH.
Qed.

Lemma lookup_map_Some {A B : Type} (f : A -> B) (l : list A) (i : nat) (a : A) :
  l !! i = Some a -> map f l !! i = Some (f a).
Proof.
  revert i. induction l as [|x l IH]; intros [|i] H; try discriminate.
  - now injection H as ->.
  - now apply IH.
Qed.

Lemma ProfilesIdx_indexNames :
  Main.ProfilesIdx = indexNames (map Main.Code Main.Profiles).
Proof.
  unfold Main.ProfilesIdx, indexNames.
  rewrite (imap_ext pair (fun i x => (0 + i, x)) Main.Profiles) by reflexivity.
  rewrite (imap_ext pair (fun i (x : string) => (0 + i, x))
                    (map Main.Code Main.Profiles)) by reflexivity.
  apply (fill_map_key Main.Code).
Qed.

Lemma Profiles_codes_NoDup : NoDup (map Main.Code Main.Profiles).
Proof. apply (bool_decide_unpack _). vm_compute. exact I. Qed.

(** X16.  The index built by [init] finds every profile of the table by
    its code, at its own position, and finds nothing for any other
    string. *)
Theorem ProfilesIdx_round_trip :
  (forall i p, Main.Profiles !! i = Some p ->
               Main.ProfilesIdx !! Main.Code p = Some i)
  /\ (forall code,
         Main.ProfilesIdx !! code = None
         <-> forall p, In p Main.Profiles -> Main.Code p <> code).
Proof.
  rewrite ProfilesIdx_indexNames. split.
  - intros i p Hi. apply indexNames_NoDup; [apply Profiles_codes_NoDup|].
    now apply lookup_map_Some.
  - intros code. split.
    + intros Hnone p Hp Hcode. apply indexNames_lookup_None in Hnone.
      apply Hnone. rewrite <- Hcode. now apply in_map.
    + intros Hall.
      destruct (indexNames (map Main.Code Main.Profiles) !! code) as [i|] eqn:Hi;
        [|reflexivity].
      apply indexNames_lookup in Hi as [Hi _].
      assert (Hin : In code (map Main.Code Main.Profiles)).
      { apply list_elem_of_In, list_elem_of_lookup. eauto. }
      apply in_map_iff in Hin as (p & Hp & Hin). now elim (Hall p Hin).
Qed.

Lemma ProfilesIdx_round_trip_witness :
  Main.ProfilesIdx !! "KoE" = Some 23
  /\ Main.ProfilesIdx !! "koe" = None.
Proof.
  split.
  - apply (proj1 ProfilesIdx_round_trip 23
             (Main.Build_Profile "KoE" "Kobo Elipsa" 1404 1872 Main.PALETTE_16)).
    reflexivity.
  - apply (proj2 ProfilesIdx_round_trip "koe").
    intros p Hp. simpl in Hp.
    repeat (destruct Hp as [<- | Hp]; [discriminate|]). contradiction.
Defined.

(** ** The names of the pages of a PDF *)

Lemma page_name_value (w k : nat) :
  decimal 0 (repeat_s "0" (w - String.length (itoa (N.of_nat (k + 1))))
             ++ itoa (N.of_nat (k + 1)))
  = N.of_nat (k + 1).
Proof.
  rewrite decimal_zeros by exact 0%N.
  now destruct (itoa_digits (N.of_nat (k + 1))) as (_ & -> & _).
Qed.

(** X17.  The tasks of a PDF (of fewer than [2^63] pages) have names that
    are pairwise different and all of the same length: five bytes for
    ["page "] and as many as [totalImages] has digits. *)
Theorem loadPdf_names_distinct (env : Env) (e : EPUBImageProcessor)
    (n : nat) (c : chan (image env)) (out : list (tasks (image env))) :
  (N.of_nat n < 2 ^ 63)%N ->
  loadPdf env e = Loaded n c ->
  observes c (Closed out) ->
  List.NoDup (map Name out)
  /\ Forall (fun t => String.length (Name t)
                      = 5 + String.length (itoa (N.of_nat n))) out.
Proof.
  intros Hint Hload Hobs. unfold loadPdf in Hload.
  destruct (pdfread_Load env (Input e)) as [[pages Extract]|]; [|discriminate].
  injection Hload as <- <-. simpl in Hobs. symmetry in Hobs.
  apply Pdf_loop_closed in Hobs. simpl in Hobs.
  set (w := String.length (itoa (N.of_nat pages))).
  set (name := fun k : nat =>
         ("page " ++ repeat_s "0" (w - String.length (itoa (N.of_nat (k + 1))))
          ++ itoa (N.of_nat (k + 1)))%string).
  assert (Hnames : map Name out = map name (seq 0 pages)).
  { transitivity (map snd (map triple out)).
    { rewrite map_map. reflexivity. }
    rewrite Hobs, map_map. apply map_ext. intros k. simpl.
    destruct (pageFmt_modelled pages (N.of_nat (k + 1)) Hint) as (_ & _ & H).
    now apply Sprintf_some in H. }
  split.
  - rewrite Hnames. apply Finite.Injective_map_NoDup; [|apply seq_NoDup].
    intros k1 k2 H. unfold name in H.
    apply (f_equal (drop_s (String.length "page "))) in H.
    rewrite !drop_s_app in H.
    apply (f_equal (decimal 0)) in H. rewrite !page_name_value in H. lia.
  - apply List.Forall_forall. intros t Ht.
    assert (Hin : In (Name t) (map Name out)) by now apply in_map.
    rewrite Hnames in Hin. apply in_map_iff in Hin as (k & <- & Hk).
    apply in_seq in Hk. unfold name.
    rewrite !length_app_s, length_repeat_s. simpl.
    pose proof (itoa_length_mono (N.of_nat (k + 1)) (N.of_nat pages)
                  ltac:(lia)) as Hm.
    fold w in Hm |- *. lia.
Qed.

Lemma loadPdf_names_distinct_witness :
  List.NoDup ["page 01"; "page 02"; "page 03"; "page 04"; "page 05";
              "page 06"; "page 07"; "page 08"; "page 09"; "page 10"].
Proof.
  exact (proj1 (loadPdf_names_distinct (pdf_env 10) (sample_e "comic.pdf" true)
                  10 _ _ ltac:(vm_compute; reflexivity)
                  ltac:(vm_compute; reflexivity) eq_refl)).
Defined.

(** ** Supported images, again *)

Lemma Ext_last_element (path : string) : Ext path = Ext (snd (Split path)).
Proof.
  destruct (split_exists path) as (dir & file & -> & Hd & Hf).
  now rewrite (Split_app dir file Hd Hf), (Ext_Split dir file Hd Hf).
Qed.

(** X18.  Whether a path is a supported image depends on its last element
    alone: the directories above it, with or without dots, play no part,
    and a path that ends with a separator is never one. *)
Theorem isSupportedImage_last_element (path : string) :
  isSupportedImage path = isSupportedImage (snd (Split path))
  /\ isSupportedImage (path ++ "/") = false.
Proof.
  split.
  - unfold isSupportedImage. now rewrite (Ext_last_element path).
  - unfold isSupportedImage.
    now rewrite (Ext_after_sep path "" eq_refl).
Qed.

(** ** Failures of the sequential pass *)

Lemma Cbr_stream_app (indexedNames : gmap string nat)
    (pre : list (rardecode.FileHeader * string))
    (rest : list (rardecode.FileHeader * (string + string)))
    (ending : rardecode.stream_end) :
  Cbr.stream indexedNames
    (map (fun p => (fst p, inr (snd p))) pre ++ rest) ending
  = (memory_jobs indexedNames pre
       ++ fst (Cbr.stream indexedNames rest ending),
     snd (Cbr.stream indexedNames rest ending))%list.
Proof.
  unfold memory_jobs.
  induction pre as [|[f b] pre IH]; simpl.
  - now destruct (Cbr.stream indexedNames rest ending).
  - destruct (indexedNames !! rardecode.HName f); [|exact IH].
    now rewrite IH.
Qed.

(** X19.  The sequential pass stops at the first failure: when the copy of
    an entry of the index fails, or when [r.Next()] fails with a header, the
    goroutine exits on a message with the name of that header, after
    queueing the jobs of the entries read before; when [r.Next()] fails
    without a header, formatting [f.Name] panics.  In every case the queue
    is not closed. *)
Theorem Cbr_stream_failure (indexedNames : gmap string nat)
    (pre : list (rardecode.FileHeader * string)) :
  (forall f i rerr post ending,
      indexedNames !! rardecode.HName f = Some i ->
      Cbr.stream indexedNames
        (map (fun p => (fst p, inr (snd p))) pre ++ (f, inl rerr) :: post)
        ending
      = (memory_jobs indexedNames pre,
         ProducerExit (error_processing (rardecode.HName f) rerr)))
  /\ (forall f rerr,
         Cbr.stream indexedNames (map (fun p => (fst p, inr (snd p))) pre)
           (rardecode.NextError (Some f) rerr)
         = (memory_jobs indexedNames pre,
            ProducerExit (error_processing (rardecode.HName f) rerr)))
  /\ (forall rerr,
         Cbr.stream indexedNames (map (fun p => (fst p, inr (snd p))) pre)
           (rardecode.NextError None rerr)
         = (memory_jobs indexedNames pre, ProducerPanic)).
Proof.
  split; [|split].
  - intros f i rerr post ending Hf. rewrite Cbr_stream_app. simpl.
    rewrite Hf. simpl. now rewrite app_nil_r.
  - intros f rerr.
    rewrite <- (app_nil_r (map _ pre)), Cbr_stream_app. simpl.
    now rewrite app_nil_r.
  - intros rerr.
    rewrite <- (app_nil_r (map _ pre)), Cbr_stream_app. simpl.
    now rewrite app_nil_r.
Qed.

Lemma Cbr_stream_failure_witness :
  Cbr.stream (indexNames ["a.jpg"; "b.png"])
    (map (fun p => (fst p, inr (snd p)))
         [(rardecode.Build_FileHeader "b.png", "IMGb")]
     ++ (rardecode.Build_FileHeader "a.jpg", inl "bad crc") :: [])
    rardecode.EOF
  = ([Cbr.Build_job 1 "b.png" (Cbr.FromMemory "IMGb")],
     ProducerExit (error_processing "a.jpg" "bad crc")).
Proof.
  rewrite (proj1 (Cbr_stream_failure (indexNames ["a.jpg"; "b.png"])
                    [(rardecode.Build_FileHeader "b.png", "IMGb")])
             (rardecode.Build_FileHeader "a.jpg") 0 "bad crc" [] rardecode.EOF)
    by (vm_compute; reflexivity).
  vm_compute. reflexivity.
Defined.

(** ** Identifiers of the pages of a rar *)

Lemma NoDup_map_inj {A B : Type} (g : A -> B) (l : list A) (a b : A) :
  NoDup (map g l) -> In a l -> In b l -> g a = g b -> a = b.
Proof.
  induction l as [|x l IH]; [contradiction|]. simpl.
  intros Hnd Ha Hb Hg. apply NoDup_cons in Hnd as [Hx Hnd].
  destruct Ha as [-> | Ha], Hb as [-> | Hb]; auto.
  - exfalso. apply Hx. rewrite Hg. apply list_elem_of_In. now apply in_map.
  - exfalso. apply Hx. rewrite <- Hg. apply list_elem_of_In. now apply in_map.
Qed.

Lemma NoDup_map_filter {A B : Type} (g : A -> B) (P : A -> bool) (l : list A) :
  NoDup (map g l) -> NoDup (map g (List.filter P l)).
Proof.
  induction l as [|x l IH]; simpl; [auto|].
  intros Hnd. apply NoDup_cons in Hnd as [Hx Hnd].
  destruct (P x); [|auto]. simpl. apply NoDup_cons. split; [|auto].
  intros Hin. apply Hx. apply list_elem_of_In in Hin.
  apply list_elem_of_In. apply in_map_iff in Hin as (y & Hy & Hin).
  apply filter_In in Hin as [Hin _]. rewrite <- Hy. now apply in_map.
Qed.

Lemma omap_filter {A B : Type} (g : A -> option B) (h : A -> B)
    (P : A -> bool) (l : list A) :
  (forall x, In x l ->
             (P x = true -> g x = Some (h x)) /\ (P x = false -> g x = None)) ->
  omap g l = map h (List.filter P l).
Proof.
  induction l as [|x l IH]; intros H; simpl; [reflexivity|].
  destruct (H x (or_introl eq_refl)) as [Ht Hf].
  destruct (P x) eqn:HP.
  - rewrite (Ht eq_refl). simpl. f_equal. apply IH.
    intros y Hy. apply H. now right.
  - rewrite (Hf eq_refl). apply IH. intros y Hy. apply H. now right.
Qed.

Lemma Cbr_worker_Emit (env : Env) (e : EPUBImageProcessor)
    (j : Cbr.job) (t : tasks (image env)) :
  Cbr.worker env e j = Emit t -> Id t = Cbr.Id j.
Proof.
  unfold Cbr.worker. destruct (decode env e _ _); try discriminate.
  destruct (Split (Clean (Cbr.Name j))) as [p fn]. now intros [= <-].
Qed.

(** The jobs queued from the listing of a rar whose entries have different
    names: one per image, in the order of the listing. *)
Lemma Cbr_listed_jobs (env : Env) (e : EPUBImageProcessor)
    (files : list rardecode.File) :
  sort_permutes env ->
  NoDup (map rardecode.Name files) ->
  let indexedNames :=
    indexNames (sortpath_By env (SortPathMode e)
                  (map rardecode.Name (Cbr.images files))) in
  omap (fun img =>
          match indexedNames !! rardecode.Name img with
          | Some i =>
              Some (Cbr.Build_job i (rardecode.Name img) (Cbr.FromArchive img))
          | None => None
          end) files
  = map (fun img => Cbr.Build_job (map_get indexedNames (rardecode.Name img))
                      (rardecode.Name img) (Cbr.FromArchive img))
        (Cbr.images files).
Proof.
  intros Hsort Hnd idx.
  change (Cbr.images files) with
    (List.filter (fun f => negb (rardecode.IsDir f)
                           && isSupportedImage (rardecode.Name f)) files) at 1.
  apply omap_filter.
  intros f Hf.
  set (sorted := sortpath_By env (SortPathMode e)
                   (map rardecode.Name (Cbr.images files))).
  assert (Hps : Permutation sorted (map rardecode.Name (Cbr.images files)))
    by apply Hsort.
  split.
  - intros HP.
    assert (Hin : In (rardecode.Name f) sorted).
    { apply (Permutation_in _ (Permutation_sym Hps)). apply in_map.
      unfold Cbr.images. apply filter_In. now split. }
    unfold map_get. destruct (idx !! rardecode.Name f) as [i|] eqn:Hi;
      [reflexivity|].
    now apply indexNames_lookup_None in Hi.
  - intros HP. destruct (idx !! rardecode.Name f) as [i|] eqn:Hi; [|reflexivity].
    exfalso. apply indexNames_lookup in Hi as [Hi _].
    assert (Hin : In (rardecode.Name f) sorted).
    { apply list_elem_of_In, list_elem_of_lookup. eauto. }
    apply (Permutation_in _ Hps) in Hin.
    apply in_map_iff in Hin as (f' & Hname & Hf').
    unfold Cbr.images in Hf'. apply filter_In in Hf' as [Hf' HP'].
    rewrite (NoDup_map_inj rardecode.Name files f' f Hnd Hf' Hf Hname) in HP'.
    congruence.
Qed.

(** X20.  When the entries of a rar have different names, a dry run, or a
    real run of an archive without solid image, numbers the pages without
    hole or repetition: with a worker, a run that closes has sent each of
    [0 .. totalImages-1] once. *)
Theorem loadCbr_ids (env : Env) (e : EPUBImageProcessor)
    (files : list rardecode.File) (n : nat) (c : chan (image env))
    (out : list (tasks (image env))) :
  sort_permutes env ->
  (0 < WorkersRatio env (Workers e) 50)%Z ->
  rardecode_List env (Input e) = inr files ->
  NoDup (map rardecode.Name files) ->
  Dry e = true \/ existsb rardecode.Solid (Cbr.images files) = false ->
  loadCbr env e = Loaded n c ->
  observes c (Closed out) ->
  Permutation (map Id out) (seq 0 n).
Proof.
  intros Hsort Hw Hlist Hnd Hmode Hload Hobs. unfold loadCbr in Hload.
  rewrite Hlist in Hload.
  destruct (length _ =? 0); [discriminate|].
  unfold Cbr.producer in Hload.
  replace (existsb rardecode.Solid (Cbr.images files) && negb (Dry e))
    with false in Hload
    by (destruct Hmode as [-> | ->]; [now rewrite andb_false_r | reflexivity]).
  rewrite (Cbr_listed_jobs env e files Hsort Hnd) in Hload.
  injection Hload as <- <-.
  apply observes_closed in Hobs as (ts & Hts & Hperm); [|exact Hw].
  rewrite <- Hperm.
  rewrite (Forall2_Emit_map _ Id Cbr.Id _ _ (Cbr_worker_Emit env e) Hts).
  rewrite map_map. simpl.
  set (names := map rardecode.Name (Cbr.images files)) in *.
  set (sorted := sortpath_By env (SortPathMode e) names).
  assert (Hps : Permutation sorted names) by apply Hsort.
  assert (Hnd' : NoDup sorted).
  { rewrite Hps. unfold names, Cbr.images. now apply NoDup_map_filter. }
  rewrite <- (map_map rardecode.Name (map_get (indexNames sorted))).
  fold names. rewrite <- Hps, (map_get_NoDup sorted Hnd').
  now rewrite (Permutation_length Hps).
Qed.

Lemma loadCbr_ids_witness :
  exists out,
    observes (Pool Cbr.job 2
                [Cbr.Build_job 1 "b.png" (Cbr.FromArchive (rar_image "b.png" false));
                 Cbr.Build_job 0 "a.jpg" (Cbr.FromArchive (rar_image "a.jpg" false))]
                Closes
                (Cbr.worker
                   (rar_env [rar_image "b.png" false; rar_image "a.jpg" false]
                      (rardecode.Build_Reader [] rardecode.EOF))
                   (sample_e "comic.cbr" false)))
             (Closed out)
    /\ Permutation (map Id out) [0; 1].
Proof.
  assert (Hobs : observes
            (Pool Cbr.job 2
               [Cbr.Build_job 1 "b.png" (Cbr.FromArchive (rar_image "b.png" false));
                Cbr.Build_job 0 "a.jpg" (Cbr.FromArchive (rar_image "a.jpg" false))]
               Closes
               (Cbr.worker
                  (rar_env [rar_image "b.png" false; rar_image "a.jpg" false]
                     (rardecode.Build_Reader [] rardecode.EOF))
                  (sample_e "comic.cbr" false)))
            (Closed [Build_tasks string 1 (Some "IMG") "" "b.png";
                     Build_tasks string 0 (Some "IMG") "" "a.jpg"])).
  { simpl. eapply obs_closed; [reflexivity | | reflexivity].
    repeat constructor. }
  eexists. split; [exact Hobs|].
  refine (loadCbr_ids
            (rar_env [rar_image "b.png" false; rar_image "a.jpg" false]
               (rardecode.Build_Reader [] rardecode.EOF))
            (sample_e "comic.cbr" false)
            [rar_image "b.png" false; rar_image "a.jpg" false] 2 _ _
            (sample_env_permutes _ _ _ _ _ _ _) eq_refl eq_refl _
            (or_intror eq_refl) _ Hobs).
  - apply (bool_decide_unpack _). vm_compute. exact I.
  - vm_compute. reflexivity.
Defined.
